(** * solar: deployment orchestration of the command-line front end

    A shallow embedding of the [solar] package's command-line state
    ([solarCLI] and its accessors) and of the [deployer.Deployer] interface,
    with the properties its specification states about endpoint selection,
    the lazily opened contracts repository and placeholder expansion.

    Process-terminating calls ([log.Fatalln], [os.Exit]) and [panic] are
    outcomes of the computation; every call that leaves the package
    (opening the repository file, constructing a deployer or an RPC client)
    is recorded in a trace. *)

From Stdlib Require Import Ascii String.
From stdpp Require Import base option list gmap strings.

Local Open Scope string_scope.

(** ** Results of Go code that may unwind *)

(** A Go function either returns or unwinds the stack with a panic value. *)
Inductive Unwind (E A : Type) : Type :=
| Done (a : A)
| Panicked (e : E).
Arguments Done {E A} a.
Arguments Panicked {E A} e.

Definition unwindBind {E A B} (m : Unwind E A) (k : A → Unwind E B) : Unwind E B :=
  match m with
  | Done a => k a
  | Panicked e => Panicked e
  end.

Declare Scope unwind_scope.
Delimit Scope unwind_scope with unwind.
Notation "'try' x := m 'in' k" := (unwindBind m (λ x, k))
  (at level 10, x name, m at level 100, k at level 200) : unwind_scope.

(** ** Package varstr *)

Module varstr.

(** Modelled from the spec: the "identifier characters" of a name, taken
    as the ASCII letters, the digits and the underscore. *)
Definition isIdent (c : ascii) : bool :=
  (("a" <=? c) && (c <=? "z") || ("A" <=? c) && (c <=? "Z")
   || ("0" <=? c) && (c <=? "9") || Ascii.eqb c "_")%char.

(** Modelled from the spec: the longest prefix of name characters,
    "contiguous identifier characters". *)
Fixpoint identPrefix (s : string) : string :=
  match s with
  | String c rest => if isIdent c then String c (identPrefix rest) else ""
  | "" => ""
  end.

Definition nonEmpty (s : string) : bool :=
  match s with "" => false | _ => true end.

(** Modelled from the spec: the token reader of [varstr.Expand], whose
    source is not part of the sources embedded here.  Called on the text that
    follows a dollar sign, it recognises the two token forms [$Name] and
    [${Name}], "name = contiguous identifier characters", and returns the
    name with the number of characters the token takes after the dollar
    sign.  A dollar sign that starts neither form is no token. *)
Definition getName (s : string) : option (string * nat) :=
  match s with
  | String "{" rest =>
      let name := identPrefix rest in
      match String.get (String.length name) rest with
      | Some "}"%char =>
          if nonEmpty name then Some (name, S (S (String.length name))) else None
      | _ => None
      end
  | _ =>
      let name := identPrefix s in
      if nonEmpty name then Some (name, String.length name) else None
  end.

(** A name: one or more name characters. *)
Fixpoint allIdent (s : string) : bool :=
  match s with
  | "" => true
  | String c rest => isIdent c && allIdent rest
  end.

Definition isName (s : string) : bool := nonEmpty s && allIdent s.

(** The text goes on with a name character, so that a name before it
    would not end there. *)
Definition continuesName (s : string) : bool :=
  match s with
  | "" => false
  | String c _ => isIdent c
  end.

(** [text] holds the placeholder [name] as a token [$name], which ends
    where the name characters end, or as a token [${name}]. *)
Definition holdsToken (text name : string) : Prop :=
  isName name = true ∧
  ∃ pre post,
    (text = pre +:+ "$" +:+ name +:+ post ∧ continuesName post = false)
    ∨ text = pre +:+ "${" +:+ name +:+ "}" +:+ post.

Section Expand.
Context {E : Type}.
(** The mapping is a Go closure [func(string) string]; it may panic. *)
Variable mapping : string → Unwind E string.

(** Modelled from the spec: [varstr.Expand(s, mapping)], absent from the
    files under study.  One left-to-right pass over [s]: [skip] counts
    the characters of the token just replaced that are still to be
    stepped over (the loop's [j += w]); every token is replaced with the
    mapping's result, which is appended and never scanned again; every
    other character is copied.  A panic of the mapping unwinds through
    the loop. *)
Fixpoint expandFrom (skip : nat) (s : string) : Unwind E string :=
  match s with
  | "" => Done ""
  | String c rest =>
      match skip with
      | S k => expandFrom k rest
      | O =>
          match (if Ascii.eqb c "$" then getName rest else None) with
          | Some (name, w) =>
              (try v := mapping name in
               try out := expandFrom w rest in
               Done (v +:+ out))%unwind
          | None =>
              (try out := expandFrom 0 rest in
               Done (String c out))%unwind
          end
      end
  end.

Definition Expand (s : string) : Unwind E string := expandFrom 0 s.
End Expand.

End varstr.

(** ** Errors, output and the trace of external calls *)

(** The [error] values that occur in the package. *)
Inductive error : Type :=
| errorUnspecifiedRPC
    (* errors.New("Please specify RPC url by setting SBIT_RPC or ETH_RPC ...") *)
| InvalidAddressExpansion (key : string)
    (* errors.Errorf("Invalid address expansion: %s", key); the
       specification's UnknownReference *)
| FileError (path : string)
    (* the repository file at [path] exists and cannot be parsed *)
| CollaboratorError (msg : string)
    (* an error returned by a constructor of package sbit or eth *)
| NilDereference.
    (* runtime error: invalid memory address or nil pointer dereference *)

(** What the package writes to standard output and standard error. *)
Inductive Output : Type :=
| OutUnspecifiedRPC                     (* log.Fatalln(errorUnspecifiedRPC) *)
| OutInvalidRPCURL (rawurl : string)    (* log.Fatalf("Invalid RPC url: %#v", rawurl) *)
| OutNewDeployerError (err : error)     (* log.Fatalf("NewDeployer error %v", err) *)
| OutErrorOpeningRepo (path : string) (err : error)
    (* fmt.Printf("error opening contracts repo file %s: %s\n", repoFilePath, err) *)
| OutInvalidSbitRPCURL (url : string).  (* fmt.Println("Invalid SBIT RPC URL:", *sbitRPC) *)

(** ** Package contract *)

Module contract.

(** Modelled from the spec: the "confirmation status (Pending | Confirmed |
    Failed)" of a deployment record. *)
Inductive Status : Type := Pending | Confirmed | Failed.

(** Modelled from the spec: [contract.DeployedContract], declared outside
    the sources embedded here: "name, chain address (chain-specific encoding),
    transaction id, confirmation status (Pending | Confirmed | Failed),
    block/ordering reference once confirmed".  The address is kept as its
    text without prefix. *)
Record DeployedContract : Type := {
  Name : string;
  Address : string;
  TransactionID : string;
  status : Status;
  block : option nat
}.

(** Modelled from the spec: the book of [contract.ContractsRepository],
    a "mapping from contract name to deployment record". *)
Definition Book : Type := gmap string DeployedContract.

(** Modelled from the spec: what durable storage holds at a path, up to
    parsing: no file ("a missing file"), a file that is no repository
    document ("present-but-unparsable"), or a document and the book it
    holds. *)
Inductive File : Type :=
| NoFile
| Malformed (raw : string)
| Document (book : gmap string DeployedContract).

(** Modelled from the spec: [contract.OpenContractsRepository(path)],
    absent from the sources embedded here: "a missing file yields a valid
    empty book (first-run case); a present-but-unparsable file is a fatal
    FileError (never silently dropped)". *)
Definition OpenContractsRepository (files : string → File) (path : string)
  : gmap string DeployedContract + error :=
  match files path with
  | NoFile => inl ∅
  | Document book => inl book
  | Malformed _ => inr (FileError path)
  end.

(** Modelled from the spec: [repo.Get(name)], "pure lookup, no side
    effects"; [None] is [found = false]. *)
Definition Get (book : gmap string DeployedContract) (name : string)
  : option DeployedContract := book !! name.

(** Modelled from the spec: the [String] method of an address under the
    output-encoding mode set by [contract.SetFormatBytesWithPrefix]:
    "addresses rendered with or without a chain-specific prefix". *)
Definition FormatBytes (chainPrefix : string) (withPrefix : bool) (bytes : string)
  : string :=
  if withPrefix then chainPrefix +:+ bytes else bytes.

End contract.

(** ** Package deployer *)

Module deployer.

(** [type Options struct].  [GasPrice] is a [*big.Float]: [None] is the nil
    pointer, [Some (m, e)] the value [m * 2^e]. *)
Record Options : Type := {
  AsLib : bool;
  Name : string;
  Overwrite : bool;
  GasPrice : option (Z * Z);
  GasLimit : N
}.

(** [type Deployer interface]: the three operations over a backend state
    [B].  [None] is the nil error.  A compiled contract is passed as its
    name and bytecode. *)
Class Deployer (D B : Type) : Type := {
  CreateContract : D → string * string → string → Options → B → option error * B;
  ConfirmContract : D → contract.DeployedContract → B →
                    option error * contract.DeployedContract * B;
  Mine : D → B → option error * B
}.

(** Modelled from the spec: what the chain answers when asked about a
    transaction, "until the chain reports the transaction as included". *)
Inductive Receipt : Type :=
| NotYet
| Included (height : nat)
| Rejected.

(** Modelled from the spec: a request sent to the backend while polling. *)
Inductive Request : Type :=
| GetReceipt (txid : string).

(** Modelled from the spec: the outcome of one confirmation call: the
    error, the record as the call leaves it ("mutating deployed.status"),
    and the requests it sent. *)
Record Confirmation : Type := {
  err : option error;
  record : contract.DeployedContract;
  sent : list Request
}.

Definition setStatus (d : contract.DeployedContract) (s : contract.Status)
    (b : option nat) : contract.DeployedContract :=
  {| contract.Name := contract.Name d;
     contract.Address := contract.Address d;
     contract.TransactionID := contract.TransactionID d;
     contract.status := s;
     contract.block := b |}.

(** Modelled from the spec: the polling loop of [ConfirmContract].  It asks
    the chain, which answers the [n]-th request about a transaction with
    [chain txid n], until the transaction is included or rejected.  [fuel]
    bounds the number of requests; [None] means the call is still blocked
    after that many. *)
Fixpoint await (chain : string → nat → Receipt) (fuel n : nat)
    (d : contract.DeployedContract) (asked : list Request) : option Confirmation :=
  match fuel with
  | O => None
  | S fuel' =>
      let asked' := (asked ++ [GetReceipt (contract.TransactionID d)])%list in
      match chain (contract.TransactionID d) n with
      | NotYet => await chain fuel' (S n) d asked'
      | Included h =>
          Some {| err := None;
                  record := setStatus d contract.Confirmed (Some h);
                  sent := asked' |}
      | Rejected =>
          Some {| err := Some (CollaboratorError "transaction failed");
                  record := setStatus d contract.Failed None;
                  sent := asked' |}
      end
  end.

(** Modelled from the spec: [ConfirmContract] of a backend; the two
    implementations are absent from the sources embedded here, which hold the
    interface only.  "Blocks (or internally polls) until the chain reports
    the transaction as included, mutating deployed.status to Confirmed or
    Failed"; "calling it again on an already-Confirmed record is a no-op
    success, not a re-submission"; a record is "immutable once status =
    Confirmed or Failed". *)
Definition confirmContract (chain : string → nat → Receipt) (fuel : nat)
    (d : contract.DeployedContract) : option Confirmation :=
  match contract.status d with
  | contract.Confirmed => Some {| err := None; record := d; sent := [] |}
  | contract.Failed =>
      Some {| err := Some (CollaboratorError "transaction failed");
              record := d; sent := [] |}
  | contract.Pending => await chain fuel 0 d []
  end.

End deployer.

(** ** Package strings of the Go library *)

(** [strings.Split(s, sep)] for a separator [sep] of one byte, as
    [SolcOptions] calls it: the pieces of [s] between the separators, in
    order; a text without separator, the empty text too, is one piece. *)
Fixpoint strings_Split (s : string) (sep : ascii) : list string :=
  match s with
  | "" => [""]
  | String c rest =>
      if Ascii.eqb c sep then "" :: strings_Split rest sep
      else
        match strings_Split rest sep with
        | piece :: pieces => String c piece :: pieces
        | [] => [String c ""]
        end
  end.

(** [strings.Join(elems, sep)]. *)
Fixpoint strings_Join (elems : list string) (sep : string) : string :=
  match elems with
  | [] => ""
  | [piece] => piece
  | piece :: pieces => piece +:+ sep +:+ strings_Join pieces sep
  end.

(** The number of times the byte [c] occurs in [s]. *)
Fixpoint occurrences (c : ascii) (s : string) : nat :=
  match s with
  | "" => 0
  | String d rest => (if Ascii.eqb d c then 1 else 0) + occurrences c rest
  end.

(** ** Package solar: the command-line state *)

Module solar.

(** The values of the command-line flags once [app.Parse] has run. *)
Record Flags : Type := {
  sbitRPC : string;            (* --sbit_rpc, SBIT_RPC *)
  sbitSenderAddress : string;  (* --sbit_sender, SBIT_SENDER *)
  ethRPC : string;             (* --eth_rpc, ETH_RPC *)
  solarEnv : string;           (* --env, SOLAR_ENV, default "development" *)
  solarRepo : string;          (* --repo, SOLAR_REPO *)
  solcOptimize : bool;
  solcAllowPaths : string
}.

(** [type RPCPlatform int] with its two constants, [RPCSbit = 0] and
    [RPCEthereum = 1]. *)
Inductive Platform : Type := RPCSbit | RPCEthereum.

(** How a call ends: it returns, it panics, or it ends the process with an
    exit code.  Each carries the state of the world at that point. *)
Inductive Result (W A : Type) : Type :=
| Ret (a : A) (w : W)
| Panic (e : error) (w : W)
| Exit (code : nat) (w : W).
Arguments Ret {W A} a w.
Arguments Panic {W A} e w.
Arguments Exit {W A} code w.

(** The world as a call leaves it. *)
Definition final {W A} (r : Result W A) : W :=
  match r with
  | Ret _ w | Panic _ w | Exit _ w => w
  end.

(** A call ended without returning to its caller. *)
Definition aborted {W A} (r : Result W A) : Prop :=
  match r with
  | Ret _ _ => False
  | Panic _ _ | Exit _ _ => True
  end.

Section Collaborators.
(** Code outside the sources embedded here: [net/url] and the constructors
    of packages [sbit] and [eth].  A constructor's result may depend on
    when it is called, given as the number of events traced so far.  The
    first component of a deployer constructor's result is the value as the
    assignment leaves it in the interface-typed result [deployer] of
    [Deployer]: [None] is the nil interface value, and every other value,
    a nil pointer of a concrete deployer type among them, is [Some] of it.
    In the second component [None] is the nil error. *)
Variable URL : Type.
Variable ParseRequestURI : string → option URL.
Variable DeployerImpl : Type.
Variable RPCClient : Type.
Variable sbit_NewDeployer :
  URL → option nat → string → nat → option DeployerImpl * option error.
Variable eth_NewDeployer :
  URL → option nat → nat → option DeployerImpl * option error.
Variable sbit_NewRPC : string → nat → option RPCClient * option error.
(** The chain-specific prefix of rendered addresses. *)
Variable chainPrefix : string.

(** What the process does that can be observed from outside. *)
Inductive Event : Type :=
| Printed (o : Output)
| OpenedRepository (path : string)
| CalledSbitNewRPC (url : string)
| CalledSbitNewDeployer (u : URL) (repo : option nat) (sender : string)
| CalledEthNewDeployer (u : URL) (repo : option nat).

(** [type solarCLI struct].  A [sync.Once] is the flag that says whether
    it has fired; a pointer to a repository is its index in the heap; the
    reporter, whose goroutine is outside this model, is a bare handle. *)
Record solarCLI : Type := {
  depoyer : option DeployerImpl;
  deployerOnce : bool;
  repo : option nat;
  repoOnce : bool;
  reporter : option nat;
  reporterOnce : bool
}.

(** The process and its surroundings: the package-level [solar] value,
    the output mode of package contract, the files on disk, the
    repositories allocated so far and the trace. *)
Record World : Type := {
  cli : solarCLI;
  formatBytesWithPrefix : bool;
  files : string → contract.File;
  heap : list (gmap string contract.DeployedContract);
  trace : list Event
}.

(** [var solar = &solarCLI{}] in a process that has done nothing yet; the
    output mode of package contract starts as "without prefix". *)
Definition start (fs : string → contract.File) : World :=
  {| cli := {| depoyer := None; deployerOnce := false;
               repo := None; repoOnce := false;
               reporter := None; reporterOnce := false |};
     formatBytesWithPrefix := false;
     files := fs;
     heap := [];
     trace := [] |}.

Definition Proc (A : Type) : Type := World → Result World A.

#[local] Instance Proc_ret : MRet Proc := λ A a w, Ret a w.
#[local] Instance Proc_bind : MBind Proc := λ A B k m w,
  match m w with
  | Ret a w' => k a w'
  | Panic e w' => Panic e w'
  | Exit code w' => Exit code w'
  end.

Definition getWorld : Proc World := λ w, Ret w w.

(** The world once [e] has been observed. *)
Definition logged (e : Event) (w : World) : World :=
  {| cli := cli w; formatBytesWithPrefix := formatBytesWithPrefix w;
     files := files w; heap := heap w;
     trace := (trace w ++ [e])%list |}.

Definition emit (e : Event) : Proc unit := λ w, Ret tt (logged e w).

Definition setCLI (c : solarCLI) : Proc unit := λ w,
  Ret tt {| cli := c; formatBytesWithPrefix := formatBytesWithPrefix w;
            files := files w; heap := heap w; trace := trace w |}.

(** A new repository object; the result is the pointer to it. *)
Definition alloc (book : gmap string contract.DeployedContract) : Proc nat := λ w,
  Ret (length (heap w))
      {| cli := cli w; formatBytesWithPrefix := formatBytesWithPrefix w;
         files := files w; heap := (heap w ++ [book])%list; trace := trace w |}.

(** [os.Exit(code)]. *)
Definition exit {A} (code : nat) : Proc A := λ w, Exit code w.

(** [log.Fatalln] and [log.Fatalf]: print, then [os.Exit(1)]. *)
Definition fatal {A} (o : Output) : Proc A :=
  emit (Printed o);; exit 1.

(** A panic raised below unwinds through the caller. *)
Definition unwind {A} (u : Unwind error A) : Proc A := λ w,
  match u with
  | Done a => Ret a w
  | Panicked e => Panic e w
  end.

(** Modelled from the spec: [contract.SetFormatBytesWithPrefix(b)], absent
    from the sources embedded here; it sets the output-encoding mode, "addresses
    rendered with or without a chain-specific prefix". *)
Definition SetFormatBytesWithPrefix (b : bool) : Proc unit := λ w,
  Ret tt {| cli := cli w; formatBytesWithPrefix := b;
            files := files w; heap := heap w; trace := trace w |}.

(** The call [contract.OpenContractsRepository(path)]: on success a
    pointer to a new repository, else the error. *)
Definition callOpenContractsRepository (path : string) : Proc (nat + error) :=
  emit (OpenedRepository path);;
  w ← getWorld;
  match contract.OpenContractsRepository (files w) path with
  | inl book => p ← alloc book; mret (inl p)
  | inr err => mret (inr err)
  end.

Definition callSbitNewRPC (url : string)
  : Proc (option RPCClient * option error) :=
  w ← getWorld;
  emit (CalledSbitNewRPC url);;
  mret (sbit_NewRPC url (length (trace w))).

Definition callSbitNewDeployer (u : URL) (r : option nat) (sender : string)
  : Proc (option DeployerImpl * option error) :=
  w ← getWorld;
  emit (CalledSbitNewDeployer u r sender);;
  mret (sbit_NewDeployer u r sender (length (trace w))).

Definition callEthNewDeployer (u : URL) (r : option nat)
  : Proc (option DeployerImpl * option error) :=
  w ← getWorld;
  emit (CalledEthNewDeployer u r);;
  mret (eth_NewDeployer u r (length (trace w))).

(** [func (c *solarCLI) RPCPlatform() RPCPlatform]. *)
Definition RPCPlatform (f : Flags) : Proc Platform :=
  (if String.eqb (sbitRPC f) "" && String.eqb (ethRPC f) ""
   then fatal OutUnspecifiedRPC
   else mret tt);;
  if negb (String.eqb (sbitRPC f) "") then mret RPCSbit
  else mret RPCEthereum.

(** The path computed at the start of the [repoOnce.Do] closure. *)
Definition repoFilePath (f : Flags) : string :=
  if negb (String.eqb (solarRepo f) "") then solarRepo f
  else "solar." +:+ solarEnv f +:+ ".json".

(** The world once a new repository holding [book] has been allocated
    and stored in [c.repo], and [repoOnce] has fired. *)
Definition stored (book : gmap string contract.DeployedContract) (w : World)
  : World :=
  {| cli := {| depoyer := depoyer (cli w);
               deployerOnce := deployerOnce (cli w);
               repo := Some (length (heap w));
               repoOnce := true;
               reporter := reporter (cli w);
               reporterOnce := reporterOnce (cli w) |};
     formatBytesWithPrefix := formatBytesWithPrefix w;
     files := files w;
     heap := (heap w ++ [book])%list;
     trace := trace w |}.

(** [func (c *solarCLI) ContractsRepository() *contract.ContractsRepository].
    The body of the closure runs when [repoOnce] has not fired; the
    flag is set when the closure returns. *)
Definition ContractsRepository (f : Flags) : Proc (option nat) :=
  w ← getWorld;
  (if repoOnce (cli w) then mret tt
   else
     opened ← callOpenContractsRepository (repoFilePath f);
     match opened with
     | inr err =>
         emit (Printed (OutErrorOpeningRepo (repoFilePath f) err));;
         exit 1
     | inl p =>
         setCLI {| depoyer := depoyer (cli w);
                   deployerOnce := deployerOnce (cli w);
                   repo := Some p;
                   repoOnce := true;
                   reporter := reporter (cli w);
                   reporterOnce := reporterOnce (cli w) |}
     end);;
  w' ← getWorld;
  mret (repo (cli w')).

(** [func (c *solarCLI) SbitRPC() *sbit.RPC]. *)
Definition SbitRPC (f : Flags) : Proc (option RPCClient) :=
  '(rpc, err) ← callSbitNewRPC (sbitRPC f);
  match err with
  | Some _ => emit (Printed (OutInvalidSbitRPCURL (sbitRPC f)));; exit 1
  | None => mret rpc
  end.

(** The closure that [ExpandJSONParams] passes to [varstr.Expand]:
    [repo.Get(key)], a panic when the key is not found, else
    [contract.Address.String()].  A nil or dangling [repo] is a runtime
    panic. *)
Definition addressOf (w : World) (r : option nat) (key : string)
  : Unwind error string :=
  match r ≫= (λ p, heap w !! p) with
  | None => Panicked NilDereference
  | Some book =>
      match contract.Get book key with
      | None => Panicked (InvalidAddressExpansion key)
      | Some c =>
          Done (contract.FormatBytes chainPrefix (formatBytesWithPrefix w)
                  (contract.Address c))
      end
  end.

(** [func (c *solarCLI) ExpandJSONParams(jsonParams string) string]. *)
Definition ExpandJSONParams (f : Flags) (jsonParams : string) : Proc string :=
  r ← ContractsRepository f;
  w ← getWorld;
  unwind (varstr.Expand (addressOf w r) jsonParams).

(** [func (c *solarCLI) ConfigureBytesOutputFormat()]. *)
Definition ConfigureBytesOutputFormat (f : Flags) : Proc unit :=
  if negb (String.eqb (ethRPC f) "") then SetFormatBytesWithPrefix true
  else mret tt.

(** [func (c *solarCLI) Deployer() (deployer deployer.Deployer)].  The
    pair threaded through the two blocks is the named result [deployer],
    an interface value, and the local [err], both nil at first; the test
    [deployer == nil] is the test for the nil interface value. *)
Definition Deployer (f : Flags) : Proc DeployerImpl :=
  '(deployer, err) ←
    (if negb (String.eqb (sbitRPC f) "") then
       match ParseRequestURI (sbitRPC f) with
       | None => fatal (OutInvalidRPCURL (sbitRPC f))
       | Some rpcURL =>
           r ← ContractsRepository f;
           callSbitNewDeployer rpcURL r (sbitSenderAddress f)
       end
     else mret (None, None));
  '(deployer, err) ←
    (if negb (String.eqb (ethRPC f) "") then
       match ParseRequestURI (ethRPC f) with
       | None => fatal (OutInvalidRPCURL (ethRPC f))
       | Some rpcURL =>
           r ← ContractsRepository f;
           callEthNewDeployer rpcURL r
       end
     else mret (deployer, err));
  match deployer with
  | None => fatal OutUnspecifiedRPC
  | Some d =>
      match err with
      | Some e => fatal (OutNewDeployerError e)
      | None => mret d
      end
  end.

(** How often the trace shows the repository file being opened, and
    how often a client being constructed by [sbit.NewRPC]. *)
Definition opensRepository (e : Event) : bool :=
  match e with OpenedRepository _ => true | _ => false end.

Definition buildsClient (e : Event) : bool :=
  match e with CalledSbitNewRPC _ => true | _ => false end.

Definition opens (t : list Event) : nat :=
  length (List.filter opensRepository t).

Definition clientsBuilt (t : list Event) : nat :=
  length (List.filter buildsClient t).

(** [n] calls in a row, with the values they return. *)
Fixpoint calls {A} (m : Proc A) (n : nat) : Proc (list A) :=
  match n with
  | O => mret []
  | S n' => a ← m; rest ← calls m n'; mret (a :: rest)
  end.

End Collaborators.

Arguments Printed {URL} o.
Arguments OpenedRepository {URL} path.
Arguments CalledSbitNewRPC {URL} url.
Arguments CalledSbitNewDeployer {URL} u repo sender.
Arguments CalledEthNewDeployer {URL} u repo.
Arguments depoyer {DeployerImpl} s.
Arguments deployerOnce {DeployerImpl} s.
Arguments repo {DeployerImpl} s.
Arguments repoOnce {DeployerImpl} s.
Arguments reporter {DeployerImpl} s.
Arguments reporterOnce {DeployerImpl} s.
Arguments cli {URL DeployerImpl} w.
Arguments formatBytesWithPrefix {URL DeployerImpl} w.
Arguments files {URL DeployerImpl} w.
Arguments heap {URL DeployerImpl} w.
Arguments trace {URL DeployerImpl} w.
Arguments start {URL DeployerImpl} fs.
Arguments logged {URL DeployerImpl} e w.
Arguments stored {URL DeployerImpl} book w.
Arguments RPCPlatform {URL DeployerImpl} f w.
Arguments ContractsRepository {URL DeployerImpl} f w.
Arguments SbitRPC {URL DeployerImpl RPCClient} sbit_NewRPC f w.
Arguments addressOf {URL DeployerImpl} chainPrefix w r key.
Arguments ExpandJSONParams {URL DeployerImpl} chainPrefix f jsonParams w.
Arguments ConfigureBytesOutputFormat {URL DeployerImpl} f w.
Arguments Deployer {URL} ParseRequestURI {DeployerImpl}
  sbit_NewDeployer eth_NewDeployer f w.
Arguments calls {URL DeployerImpl A} m n w.
Arguments opens {URL} t.
Arguments clientsBuilt {URL} t.

(** [CompilerOptions], with the two fields that [SolcOptions] fills. *)
Record CompilerOptions : Type := {
  NoOptimize : bool;
  AllowPaths : list string
}.

(** [errors.Wrap(err, message)]. *)
Inductive Wrapped : Type :=
| Wrap (cause : error) (message : string).

(** [func (c *solarCLI) SolcOptions()], which returns the options or an
    error.  [Getwd] is what [os.Getwd()] returns in the process, the
    directory or an error; it is asked for only when [--allow-paths] is
    empty. *)
Definition SolcOptions (f : Flags) (Getwd : string + error)
  : CompilerOptions + Wrapped :=
  match
    (if String.eqb (solcAllowPaths f) "" then
       match Getwd with
       | inr err => inr (Wrap err "solc options")
       | inl cwd => inl cwd
       end
     else inl (solcAllowPaths f))
  with
  | inr wrapped => inr wrapped
  | inl allowPathsStr =>
      inl {| NoOptimize := negb (solcOptimize f);
             AllowPaths := strings_Split allowPathsStr "," |}
  end.

Section Startup.
Context {URL DeployerImpl : Type}.

(** The process as [Main] leaves it: the world, and what [Main] itself has
    written with [fmt.Println(err)]. *)
Record Console : Type := {
  world : World URL DeployerImpl;
  said : list error
}.

Definition quiet (w : World URL DeployerImpl) : Console :=
  {| world := w; said := [] |}.

(** [func Main()].  [parsed] is what [app.Parse(os.Args[1:])] returns, the
    name of the command or an error, [f] the flags it has set, and
    [appTasks] the map of registered tasks, in which a missing command is
    the nil function, whose call is a runtime panic.  A task returns its
    error, [None] for nil. *)
Definition Main (parsed : string + error) (f : Flags)
    (appTasks : string → option (Proc URL DeployerImpl (option error)))
    (w : World URL DeployerImpl) : Result Console unit :=
  match parsed with
  | inr err => Exit 1 {| world := w; said := [err] |}
  | inl cmdName =>
      match ConfigureBytesOutputFormat f w with
      | Panic e w1 => Panic e (quiet w1)
      | Exit code w1 => Exit code (quiet w1)
      | Ret _ w1 =>
          match appTasks cmdName with
          | None => Panic NilDereference (quiet w1)
          | Some task =>
              match task w1 with
              | Panic e w2 => Panic e (quiet w2)
              | Exit code w2 => Exit code (quiet w2)
              | Ret (Some err) w2 => Exit 1 {| world := w2; said := [err] |}
              | Ret None w2 => Ret tt (quiet w2)
              end
          end
      end
  end.

(** The repository, once opened, is at hand: when [repoOnce] has fired,
    [c.repo] points to a repository that has been allocated. *)
Definition consistent (w : World URL DeployerImpl) : Prop :=
  repoOnce (cli w) = true → ∃ p, repo (cli w) = Some p ∧ is_Some (heap w !! p).

(** A call that keeps a property of the world, however it ends. *)
Definition keeps {A} (I : World URL DeployerImpl → Prop)
    (m : Proc URL DeployerImpl A) : Prop :=
  ∀ w, I w → I (final (m w)).

(** How a call ended: [None] when it returned, else the panic value or
    the exit code. *)
Definition ending {W A} (r : Result W A) : option (error + nat) :=
  match r with
  | Ret _ _ => None
  | Panic e _ => Some (inl e)
  | Exit code _ => Some (inr code)
  end.

(** A call that, when it does not return, ends the process with exit code
    1: it does not panic and uses no other code. *)
Definition exitsWithOne {A} (m : Proc URL DeployerImpl A) : Prop :=
  ∀ w x, ending (m w) = Some x → x = inr 1.

End Startup.

Arguments Console : clear implicits.
End solar.

(** ** Stand-ins for the collaborators

    Concrete collaborators on which the model runs: a URI check that, like
    [url.ParseRequestURI], refuses the empty string and, the lone asterisk
    apart, a string that has neither a scheme nor a leading slash; and
    constructors that succeed and return a value recording their arguments
    and the time of the call. *)

Module fake.

Fixpoint hasScheme (first : bool) (s : string) : bool :=
  match s with
  | "" => false
  | String c rest =>
      if (("a" <=? c) && (c <=? "z") || ("A" <=? c) && (c <=? "Z"))%char
      then hasScheme false rest
      else if (("0" <=? c) && (c <=? "9") || Ascii.eqb c "+"
               || Ascii.eqb c "-" || Ascii.eqb c ".")%char
      then (if first then false else hasScheme false rest)
      else if Ascii.eqb c ":" then negb first
      else false
  end.

Definition ParseRequestURI (rawurl : string) : option string :=
  match rawurl with
  | "" => None
  | String c rest =>
      if Ascii.eqb c "/" || hasScheme true rawurl || String.eqb rawurl "*"
      then Some rawurl else None
  end.

Inductive Impl : Type :=
| SbitDeployer (u : string) (repo : option nat) (sender : string) (at_ : nat)
| EthDeployer (u : string) (repo : option nat) (at_ : nat).

Definition sbit_NewDeployer (u : string) (r : option nat) (sender : string)
    (t : nat) : option Impl * option error :=
  (Some (SbitDeployer u r sender t), None).

Definition eth_NewDeployer (u : string) (r : option nat) (t : nat)
  : option Impl * option error :=
  (Some (EthDeployer u r t), None).

Definition sbit_NewRPC (url : string) (t : nat)
  : option (string * nat) * option error :=
  (Some (url, t), None).

(** Flags with the defaults of the command line, the two endpoints and
    the repository path given. *)
Definition flagsAt (repo sbit eth : string) : solar.Flags :=
  {| solar.sbitRPC := sbit;
     solar.sbitSenderAddress := "";
     solar.ethRPC := eth;
     solar.solarEnv := "development";
     solar.solarRepo := repo;
     solar.solcOptimize := true;
     solar.solcAllowPaths := "" |}.

Definition flags (sbit eth : string) : solar.Flags := flagsAt "" sbit eth.

(** A resolver that knows [Foo] and panics for every other name. *)
Definition fooResolver (key : string) : Unwind error string :=
  if String.eqb key "Foo" then Done "0xABC"
  else Panicked (InvalidAddressExpansion key).

(** A disk without files. *)
Definition noFiles : string → contract.File := λ _, contract.NoFile.

Definition foo : contract.DeployedContract :=
  {| contract.Name := "Foo"; contract.Address := "ABC";
     contract.TransactionID := "71c2"; contract.status := contract.Confirmed;
     contract.block := Some 12 |}.

(** A disk whose development repository binds [Foo]. *)
Definition oneFile : string → contract.File := λ path,
  if String.eqb path "solar.development.json"
  then contract.Document {[ "Foo" := foo ]}
  else contract.NoFile.

(** A disk whose development repository cannot be parsed. *)
Definition badFile : string → contract.File := λ path,
  if String.eqb path "solar.development.json"
  then contract.Malformed "{"
  else contract.NoFile.

Definition World : Type := solar.World string Impl.
Definition start : (string → contract.File) → World := solar.start.

Definition SbitRPC : solar.Flags → solar.Proc string Impl (option (string * nat)) :=
  solar.SbitRPC sbit_NewRPC.
Definition ExpandJSONParams : solar.Flags → string → solar.Proc string Impl string :=
  solar.ExpandJSONParams "0x".
Definition Deployer : solar.Flags → solar.Proc string Impl Impl :=
  solar.Deployer ParseRequestURI sbit_NewDeployer eth_NewDeployer.




(** Flags that differ from the defaults in [--allow-paths] and
    [--optimize] only. *)
Definition solcFlags (allowPaths : string) (optimize : bool) : solar.Flags :=
  {| solar.sbitRPC := "";
     solar.sbitSenderAddress := "";
     solar.ethRPC := "";
     solar.solarEnv := "development";
     solar.solarRepo := "";
     solar.solcOptimize := optimize;
     solar.solcAllowPaths := allowPaths |}.

(** Two tasks: one that asks for the deployer and succeeds when it gets
    one, one that returns an error. *)
Definition deployTask (f : solar.Flags) : solar.Proc string Impl (option error) :=
  λ w, match Deployer f w with
       | solar.Ret _ w' => solar.Ret None w'
       | solar.Panic e w' => solar.Panic e w'
       | solar.Exit code w' => solar.Exit code w'
       end.

Definition statusTask : solar.Proc string Impl (option error) :=
  λ w, solar.Ret (Some (CollaboratorError "not deployed")) w.

Definition appTasks (f : solar.Flags) (cmdName : string)
  : option (solar.Proc string Impl (option error)) :=
  if String.eqb cmdName "deploy" then Some (deployTask f)
  else if String.eqb cmdName "status" then Some statusTask
  else None.

End fake.

(** * Properties *)

(** ** Strings *)

Lemma append_cons (c : ascii) (s t : string) :
  String c s +:+ t = String c (s +:+ t).
Proof. reflexivity. Qed.

Lemma append_empty_l (t : string) : "" +:+ t = t.
Proof. reflexivity. Qed.

Lemma append_assoc (s t u : string) : (s +:+ t) +:+ u = s +:+ (t +:+ u).
Proof.
  induction s as [|c s IH]; [reflexivity|].
  rewrite !append_cons. by rewrite IH.
Qed.

Lemma get_lt_length (n : nat) (s : string) (c : ascii) :
  String.get n s = Some c → n < String.length s.
Proof.
  revert n. induction s as [|d s IH]; intros n Hget; [done|].
  destruct n as [|n]; simpl in *; [lia|].
  apply IH in Hget. lia.
Qed.

Lemma get_append_l (n : nat) (s t : string) :
  n < String.length s → String.get n (s +:+ t) = String.get n s.
Proof.
  revert n. induction s as [|d s IH]; intros n Hn; simpl in Hn; [lia|].
  rewrite append_cons. destruct n as [|n]; [reflexivity|].
  simpl. apply IH. lia.
Qed.

Lemma get_append_length (s t : string) :
  String.get (String.length s) (s +:+ t) = String.get 0 t.
Proof.
  induction s as [|d s IH]; [reflexivity|].
  rewrite append_cons. simpl. exact IH.
Qed.

(** ** The token reader *)

Section varstr_facts.
Import varstr.

Lemma identPrefix_length (s : string) :
  (String.length (identPrefix s) ≤ String.length s)%nat.
Proof.
  induction s as [|c s IH]; simpl; [lia|].
  destruct (isIdent c); simpl; lia.
Qed.

(** A name is read whole when the text after it does not go on with a
    name character. *)
Lemma identPrefix_name (name post : string) :
  allIdent name = true → continuesName post = false →
  identPrefix (name +:+ post) = name.
Proof.
  intros Hname Hpost. induction name as [|c name IH].
  - rewrite append_empty_l. destruct post as [|d post]; [reflexivity|].
    simpl in *. by rewrite Hpost.
  - simpl in Hname. apply andb_prop in Hname as [Hc Hname].
    rewrite append_cons. simpl. rewrite Hc. by rewrite IH.
Qed.

Lemma identPrefix_app_stop (r x : string) :
  continuesName x = false → 
  identPrefix (r +:+ x) = identPrefix r.
Proof.
  intros Hx. induction r as [|c r IH].
  - rewrite append_empty_l. destruct x as [|d x]; [reflexivity|].
    simpl in *. by rewrite Hx.
  - rewrite append_cons. simpl. destruct (isIdent c); [by rewrite IH|reflexivity].
Qed.

Lemma isName_first (name : string) :
  isName name = true →
  ∃ c rest, name = String c rest ∧ isIdent c = true ∧ allIdent rest = true.
Proof.
  unfold isName. destruct name as [|c rest]; [done|].
  simpl. intros [Hc Hrest]%andb_prop. eauto.
Qed.

(** The form [$Name]. *)
Lemma getName_plain (name post : string) :
  isName name = true → continuesName post = false →
  getName (name +:+ post) = Some (name, String.length name).
Proof.
  intros Hname Hpost.
  destruct (isName_first name Hname) as (c & rest & -> & Hc & Hrest).
  assert (Hall : allIdent (String c rest) = true) by (simpl; by rewrite Hc).
  rewrite append_cons. unfold getName.
  rewrite <- append_cons, (identPrefix_name _ _ Hall Hpost).
  destruct c as [[] [] [] [] [] [] [] []]; first [discriminate Hc | reflexivity].
Qed.

(** The form [${Name}]. *)
Lemma getName_braced (name post : string) :
  isName name = true →
  getName ("{" +:+ name +:+ "}" +:+ post) =
    Some (name, S (S (String.length name))).
Proof.
  intros Hname.
  destruct (isName_first name Hname) as (c & rest & Heq & Hc & Hrest).
  assert (Hall : allIdent name = true) by (subst; simpl; by rewrite Hc).
  rewrite append_cons, append_empty_l. unfold getName.
  rewrite (identPrefix_name name ("}" +:+ post) Hall eq_refl).
  rewrite get_append_length. rewrite append_cons. simpl String.get.
  subst name. reflexivity.
Qed.

Lemma getName_width (r name : string) (w : nat) :
  getName r = Some (name, w) → (w ≤ String.length r)%nat.
Proof.
  unfold getName. intros Hget.
  assert (Hplain : ∀ s, (if nonEmpty (identPrefix s)
                         then Some (identPrefix s, String.length (identPrefix s))
                         else None) = Some (name, w) →
                        (w ≤ String.length s)%nat).
  { intros s Hs. destruct (nonEmpty (identPrefix s)); [|done].
    injection Hs as _ <-. apply identPrefix_length. }
  destruct r as [|c rest]; [by apply (Hplain "")|].
  destruct (decide (c = "{"%char)) as [->|Hc].
  - destruct (String.get _ rest) as [d|] eqn:Hd; [|done].
    destruct (decide (d = "}"%char)) as [->|Hd'].
    + destruct (nonEmpty (identPrefix rest)); [|done].
      injection Hget as _ <-. apply get_lt_length in Hd. simpl. lia.
    + destruct d as [[] [] [] [] [] [] [] []]; first [done | by destruct Hd'].
  - apply Hplain.
    destruct c as [[] [] [] [] [] [] [] []]; first [exact Hget | by destruct Hc].
Qed.

(** A dollar sign ends every token before it: what the reader finds in
    [r] does not change when a dollar sign and more text follow. *)
Lemma getName_app_dollar (r x : string) :
  getName (r +:+ String "$" x) = getName r.
Proof.
  assert (Hstop : continuesName (String "$" x) = false) by reflexivity.
  assert (Hplain : ∀ s, identPrefix (s +:+ String "$" x) = identPrefix s)
    by (intros s; by apply identPrefix_app_stop).
  destruct r as [|c rest]; [reflexivity|].
  rewrite append_cons.
  destruct (decide (c = "{"%char)) as [->|Hc].
  - unfold getName. rewrite Hplain.
    pose proof (identPrefix_length rest) as Hlen.
    destruct (decide (String.length (identPrefix rest) = String.length rest))
      as [Heq|Hne].
    + rewrite Heq, get_append_length. simpl.
      destruct (String.get (String.length rest) rest) as [d|] eqn:Hd; [|done].
      apply get_lt_length in Hd. lia.
    + rewrite get_append_l by lia. reflexivity.
  - transitivity
      (if nonEmpty (identPrefix (String c (rest +:+ String "$" x)))
       then Some (identPrefix (String c (rest +:+ String "$" x)),
                  String.length (identPrefix (String c (rest +:+ String "$" x))))
       else None).
    { unfold getName.
      destruct c as [[] [] [] [] [] [] [] []]; first [reflexivity | by destruct Hc]. }
    rewrite <- append_cons, Hplain. unfold getName.
    destruct c as [[] [] [] [] [] [] [] []]; first [reflexivity | by destruct Hc].
Qed.

End varstr_facts.

(** ** Expansion *)

Section Expand_facts.
Import varstr.
Context {E : Type}.
Variable mapping : string → Unwind E string.

Local Open Scope unwind_scope.

(** The characters of a replaced token are stepped over. *)
Lemma expandFrom_skip (x rest : string) :
  expandFrom mapping (String.length x) (x +:+ rest) = expandFrom mapping 0 rest.
Proof.
  induction x as [|c x IH]; [reflexivity|].
  rewrite append_cons. simpl. exact IH.
Qed.

(** At a token the mapping is called with its name, and the pass goes on
    behind the token. *)
Lemma Expand_at_token (name rest after : string) (w : nat) :
  getName rest = Some (name, w) →
  (∃ x, rest = x +:+ after ∧ String.length x = w) →
  Expand mapping (String "$" rest) =
    try v := mapping name in
    try out := Expand mapping after in
    Done (v +:+ out).
Proof.
  intros Hget (x & -> & <-). unfold Expand. simpl. rewrite Hget.
  by rewrite expandFrom_skip.
Qed.

Lemma expandFrom_cons (c : ascii) (s : string) :
  expandFrom mapping 0 (String c s) =
    match (if Ascii.eqb c "$" then getName s else None) with
    | Some (name, w) =>
        try v := mapping name in
        try out := expandFrom mapping w s in
        Done (v +:+ out)
    | None =>
        try out := expandFrom mapping 0 s in
        Done (String c out)
    end.
Proof. reflexivity. Qed.

(** The pass over text that stops before a dollar sign does not depend on
    what follows, and the pass starts afresh at that dollar sign. *)
Lemma expandFrom_app_dollar (pre x : string) (skip : nat) :
  (skip ≤ String.length pre)%nat →
  expandFrom mapping skip (pre +:+ String "$" x) =
    try a := expandFrom mapping skip pre in
    try b := expandFrom mapping 0 (String "$" x) in
    Done (a +:+ b).
Proof.
  remember (expandFrom mapping 0 (String "$" x)) as tail eqn:Htail.
  revert skip. induction pre as [|c pre IH]; intros skip Hskip.
  - simpl in Hskip. replace skip with 0 by lia.
    rewrite append_empty_l, <- Htail. by destruct tail.
  - rewrite append_cons. simpl in Hskip. destruct skip as [|k].
    + rewrite !expandFrom_cons.
      destruct (Ascii.eqb c "$") eqn:Hc.
      * rewrite getName_app_dollar.
        destruct (getName pre) as [[name w]|] eqn:Hget.
        -- apply getName_width in Hget. rewrite IH by lia.
           destruct (mapping name) as [v|e]; [|reflexivity].
           destruct (expandFrom mapping w pre) as [a|e]; [|reflexivity].
           destruct tail as [b|e]; [|reflexivity].
           unfold unwindBind. by rewrite append_assoc.
        -- rewrite IH by lia.
           destruct (expandFrom mapping 0 pre) as [a|e]; [|reflexivity].
           by destruct tail.
      * rewrite IH by lia.
        destruct (expandFrom mapping 0 pre) as [a|e]; [|reflexivity].
        by destruct tail.
    + change (expandFrom mapping (S k) (String c (pre +:+ String "$" x)))
        with (expandFrom mapping k (pre +:+ String "$" x)).
      change (expandFrom mapping (S k) (String c pre))
        with (expandFrom mapping k pre).
      apply IH. lia.
Qed.

Lemma Expand_app_dollar (pre x : string) :
  Expand mapping (pre +:+ String "$" x) =
    try a := Expand mapping pre in
    try b := Expand mapping (String "$" x) in
    Done (a +:+ b).
Proof. unfold Expand. apply expandFrom_app_dollar. lia. Qed.

(** The token [$name]: the text before it is expanded, the mapping is
    asked for [name], and the pass goes on behind the name. *)
Lemma Expand_plain_token (pre name post : string) :
  isName name = true → continuesName post = false →
  Expand mapping (pre +:+ "$" +:+ name +:+ post) =
    try a := Expand mapping pre in
    try v := mapping name in
    try b := Expand mapping post in
    Done (a +:+ v +:+ b).
Proof.
  intros Hname Hpost.
  change ("$" +:+ name +:+ post) with (String "$" (name +:+ post)).
  rewrite Expand_app_dollar.
  rewrite (Expand_at_token name (name +:+ post) post (String.length name))
    by eauto using getName_plain.
  destruct (Expand mapping pre); [|reflexivity].
  destruct (mapping name); [|reflexivity].
  by destruct (Expand mapping post).
Qed.

(** The token [${name}]. *)
Lemma Expand_braced_token (pre name post : string) :
  isName name = true →
  Expand mapping (pre +:+ "${" +:+ name +:+ "}" +:+ post) =
    try a := Expand mapping pre in
    try v := mapping name in
    try b := Expand mapping post in
    Done (a +:+ v +:+ b).
Proof.
  intros Hname.
  change ("${" +:+ name +:+ "}" +:+ post)
    with (String "$" ("{" +:+ name +:+ "}" +:+ post)).
  rewrite Expand_app_dollar.
  rewrite (Expand_at_token name ("{" +:+ name +:+ "}" +:+ post) post
             (S (S (String.length name)))).
  - destruct (Expand mapping pre); [|reflexivity].
    destruct (mapping name); [|reflexivity].
    by destruct (Expand mapping post).
  - by apply getName_braced.
  - exists ("{" +:+ name +:+ "}"). split.
    + by rewrite !append_assoc.
    + change ("{" +:+ name +:+ "}") with (String "{" (name +:+ "}")).
      simpl. f_equal. clear. induction name as [|c name IH]; [reflexivity|].
      rewrite append_cons. simpl. by rewrite IH.
Qed.

(** A panic that leaves the pass was raised by the mapping. *)
Lemma expandFrom_panic_origin (s : string) (skip : nat) (e : E) :
  expandFrom mapping skip s = Panicked e →
  ∃ name, mapping name = Panicked e.
Proof.
  revert skip. induction s as [|c s IH]; intros skip Hrun; [done|].
  simpl in Hrun. destruct skip as [|k]; [|by eapply IH].
  destruct (if Ascii.eqb c "$" then getName s else None) as [[name w]|].
  - destruct (mapping name) as [v|e'] eqn:Hm; simpl in Hrun.
    + destruct (expandFrom mapping w s) as [out|e'] eqn:Hout; [done|].
      simpl in Hrun. injection Hrun as ->. by eapply IH.
    + injection Hrun as ->. by exists name.
  - destruct (expandFrom mapping 0 s) as [out|e'] eqn:Hout; [done|].
    simpl in Hrun. injection Hrun as ->. by eapply IH.
Qed.

End Expand_facts.

(** ** The command-line state *)

Section solar_facts.
Import solar.
Context {URL DeployerImpl RPCClient : Type}.
Variable ParseRequestURI : string → option URL.
Variable sbit_NewDeployer :
  URL → option nat → string → nat → option DeployerImpl * option error.
Variable eth_NewDeployer :
  URL → option nat → nat → option DeployerImpl * option error.
Variable sbit_NewRPC : string → nat → option RPCClient * option error.
Variable chainPrefix : string.

Implicit Types (f : Flags) (w : World URL DeployerImpl).

Ltac run :=
  unfold ContractsRepository, callOpenContractsRepository, fatal, emit, exit,
    alloc, setCLI, getWorld, mbind, mret, Proc_bind, Proc_ret; simpl.

Lemma eqb_empty_false (s : string) : s ≠ "" → String.eqb s "" = false.
Proof. intros Hs. by apply String.eqb_neq. Qed.

(** Once [repoOnce] has fired, the accessor returns [c.repo] and does
    nothing else. *)
Lemma ContractsRepository_cached f w :
  repoOnce (cli w) = true → ContractsRepository f w = Ret (repo (cli w)) w.
Proof. intros Hfired. run. by rewrite Hfired. Qed.

(** The first call opens the file at [repoFilePath]. *)
Lemma ContractsRepository_first f w :
  repoOnce (cli w) = false →
  ContractsRepository f w =
    match contract.OpenContractsRepository (files w) (repoFilePath f) with
    | inl book =>
        Ret (Some (length (heap w)))
            (stored book (logged (OpenedRepository (repoFilePath f)) w))
    | inr err =>
        Exit 1 (logged (Printed (OutErrorOpeningRepo (repoFilePath f) err))
                  (logged (OpenedRepository (repoFilePath f)) w))
    end.
Proof.
  intros Hfresh. run. rewrite Hfresh.
  by destruct (contract.OpenContractsRepository _ _).
Qed.

(** A call that returns leaves the repository cached. *)
Lemma ContractsRepository_returns f w r w1 :
  ContractsRepository f w = Ret r w1 →
  repoOnce (cli w1) = true ∧ repo (cli w1) = r.
Proof.
  destruct (repoOnce (cli w)) eqn:Hfired.
  - rewrite ContractsRepository_cached by done. by intros [= <- <-].
  - rewrite ContractsRepository_first by done.
    destruct (contract.OpenContractsRepository _ _); [|done].
    by intros [= <- <-].
Qed.

(** The accessor never panics: it returns or ends the process. *)
Lemma ContractsRepository_no_panic f w e w1 :
  ContractsRepository f w ≠ Panic e w1.
Proof.
  destruct (repoOnce (cli w)) eqn:Hfired.
  - by rewrite ContractsRepository_cached.
  - rewrite ContractsRepository_first by done.
    by destruct (contract.OpenContractsRepository _ _).
Qed.

(** C8.  When no repository path is given ([--repo] empty), the first call
    of [ContractsRepository] opens the file [solar.<env>.json] of the
    environment; a path given with [--repo] is the one opened instead. *)
Theorem repository_file_by_convention f w :
  repoOnce (cli w) = false →
  (solarRepo f = "" →
     repoFilePath f = "solar." +:+ solarEnv f +:+ ".json" ∧
     ∃ rest, trace (final (ContractsRepository f w)) =
             (trace w ++ OpenedRepository ("solar." +:+ solarEnv f +:+ ".json")
                :: rest)%list) ∧
  (solarRepo f ≠ "" →
     repoFilePath f = solarRepo f ∧
     ∃ rest, trace (final (ContractsRepository f w)) =
             (trace w ++ OpenedRepository (solarRepo f) :: rest)%list).
Proof.
  intros Hfresh.
  assert (Hopens : ∃ rest, trace (final (ContractsRepository f w)) =
            (trace w ++ OpenedRepository (repoFilePath f) :: rest)%list).
  { rewrite ContractsRepository_first by done.
    destruct (contract.OpenContractsRepository _ _); simpl.
    - by exists [].
    - eexists. by rewrite <- app_assoc. }
  split; intros Hrepo.
  - assert (Hpath : repoFilePath f = "solar." +:+ solarEnv f +:+ ".json")
      by (unfold repoFilePath; by rewrite Hrepo).
    by rewrite <- Hpath.
  - assert (Hpath : repoFilePath f = solarRepo f)
      by (unfold repoFilePath; by rewrite eqb_empty_false).
    by rewrite <- Hpath.
Qed.

(** C3.  Where no file exists at the repository path, opening yields a
    valid empty book; where a file exists and cannot be parsed, opening
    fails with a [FileError], which [ContractsRepository] prints before
    it ends the process with exit code 1: no book, empty or other, is
    stored or returned. *)
Theorem missing_file_empty_book_malformed_file_fatal f w :
  repoOnce (cli w) = false →
  (files w (repoFilePath f) = contract.NoFile →
     contract.OpenContractsRepository (files w) (repoFilePath f) = inl ∅ ∧
     ∃ w1, ContractsRepository f w = Ret (Some (length (heap w))) w1 ∧
           heap w1 !! length (heap w) = Some ∅) ∧
  (∀ raw, files w (repoFilePath f) = contract.Malformed raw →
     contract.OpenContractsRepository (files w) (repoFilePath f) =
       inr (FileError (repoFilePath f)) ∧
     ContractsRepository f w =
       Exit 1 (logged (Printed (OutErrorOpeningRepo (repoFilePath f)
                                  (FileError (repoFilePath f))))
                 (logged (OpenedRepository (repoFilePath f)) w)) ∧
     cli (final (ContractsRepository f w)) = cli w ∧
     heap (final (ContractsRepository f w)) = heap w).
Proof.
  intros Hfresh. split.
  - intros Hfile. rewrite ContractsRepository_first by done.
    unfold contract.OpenContractsRepository. rewrite Hfile.
    split; [done|]. eexists. split; [done|]. simpl.
    by rewrite lookup_app_r, Nat.sub_diag.
  - intros raw Hfile. rewrite ContractsRepository_first by done.
    unfold contract.OpenContractsRepository. by rewrite Hfile.
Qed.

(** After a call that returns, a call in any later state of the process
    returns the same pointer and changes nothing. *)
Lemma ContractsRepository_again f w r w1 :
  ContractsRepository f w = Ret r w1 →
  ∀ f' w2, cli w2 = cli w1 → ContractsRepository f' w2 = Ret r w2.
Proof.
  intros Hcall f' w2 Hcli.
  destruct (ContractsRepository_returns _ _ _ _ Hcall) as [Hfired <-].
  rewrite ContractsRepository_cached; by rewrite Hcli.
Qed.

Lemma ContractsRepository_calls f w r w1 :
  ContractsRepository f w = Ret r w1 →
  ∀ f' n, calls (ContractsRepository f') n w1 = Ret (replicate n r) w1.
Proof.
  intros Hcall f' n. induction n as [|n IH]; [reflexivity|].
  simpl. unfold mbind, Proc_bind at 1.
  rewrite (ContractsRepository_again _ _ _ _ Hcall) by done.
  unfold Proc_bind at 1. by rewrite IH.
Qed.

(** In a process that does nothing but call the accessor, the repository
    file is opened at most once, however many calls are made. *)
Lemma ContractsRepository_opens_once f fs n :
  (opens (trace (final (calls (ContractsRepository f) n
                          (start (URL:=URL) (DeployerImpl:=DeployerImpl) fs))))
   ≤ 1)%nat.
Proof.
  destruct n as [|n]; [cbv; lia|].
  simpl. unfold mbind, Proc_bind at 1.
  destruct (ContractsRepository f (start fs)) as [r w1|e w1|code w1] eqn:Hcall.
  - unfold Proc_bind at 1.
    rewrite (ContractsRepository_calls _ _ _ _ Hcall). simpl.
    rewrite ContractsRepository_first in Hcall by done.
    destruct (contract.OpenContractsRepository _ _); [|done].
    injection Hcall as _ <-. cbv. lia.
  - by apply ContractsRepository_no_panic in Hcall.
  - rewrite ContractsRepository_first in Hcall by done.
    destruct (contract.OpenContractsRepository _ _); [done|].
    injection Hcall as _ <-. cbv. lia.
Qed.

(** In a fresh process whose repository file can be opened, any number of
    calls in a row, one at least, return the pointer to the one repository
    that the first call has opened, and the file has been opened once. *)
Lemma ContractsRepository_calls_from_start f fs book n :
  contract.OpenContractsRepository fs (repoFilePath f) = inl book →
  calls (ContractsRepository f) (S n)
    (start (URL:=URL) (DeployerImpl:=DeployerImpl) fs) =
    Ret (replicate (S n) (Some 0))
      (stored book (logged (OpenedRepository (repoFilePath f)) (start fs))) ∧
  opens (trace (stored book
                  (logged (OpenedRepository (URL:=URL) (repoFilePath f))
                     (start (DeployerImpl:=DeployerImpl) fs)))) = 1.
Proof.
  intros Hopen. split; [|reflexivity].
  assert (Hfirst : ContractsRepository f (start fs) =
            Ret (Some 0)
              (stored book (logged (OpenedRepository (repoFilePath f))
                              (start (URL:=URL) (DeployerImpl:=DeployerImpl) fs)))).
  { rewrite ContractsRepository_first by done. simpl files. by rewrite Hopen. }
  simpl. unfold mbind, Proc_bind at 1. rewrite Hfirst.
  unfold Proc_bind at 1.
  by rewrite (ContractsRepository_calls _ _ _ _ Hfirst).
Qed.

(** C6.  The repository is opened lazily, at most once per process, and
    cached.  The first call of [ContractsRepository], on a file that can be
    opened, opens it, stores the new repository in [c.repo], fires
    [repoOnce] and returns the pointer to that repository, which holds the
    book of the file; a call after [repoOnce] has fired returns [c.repo]
    and does nothing else.  After a call that returns, a call in every
    later state of the process, whatever the files on disk and the flags
    have become, returns the identical pointer and changes nothing, so that
    storage is not read again.  In a fresh process any number of calls
    return one and the same pointer and open the file exactly once; and
    however the calls end, the file is opened at most once. *)
Theorem repository_opened_once_and_cached f w :
  (repoOnce (cli w) = false →
     ∀ book,
       contract.OpenContractsRepository (files w) (repoFilePath f) = inl book →
       ContractsRepository f w =
         Ret (Some (length (heap w)))
           (stored book (logged (OpenedRepository (repoFilePath f)) w)) ∧
       heap (stored book (logged (OpenedRepository (repoFilePath f)) w))
         !! length (heap w) = Some book ∧
       repoOnce (cli (stored book (logged (OpenedRepository (repoFilePath f)) w)))
         = true ∧
       repo (cli (stored book (logged (OpenedRepository (repoFilePath f)) w)))
         = Some (length (heap w))) ∧
  (repoOnce (cli w) = true → ContractsRepository f w = Ret (repo (cli w)) w) ∧
  (∀ r w1,
     ContractsRepository f w = Ret r w1 →
     repoOnce (cli w1) = true ∧ repo (cli w1) = r ∧
     (∀ f' w2, cli w2 = cli w1 → ContractsRepository f' w2 = Ret r w2) ∧
     (∀ f' n, calls (ContractsRepository f') n w1 = Ret (replicate n r) w1) ∧
     (repoOnce (cli w) = false →
        trace w1 = (trace w ++ [OpenedRepository (repoFilePath f)])%list) ∧
     (repoOnce (cli w) = true → w1 = w)) ∧
  (∀ fs book n,
     contract.OpenContractsRepository fs (repoFilePath f) = inl book →
     calls (ContractsRepository f) (S n)
       (start (URL:=URL) (DeployerImpl:=DeployerImpl) fs) =
       Ret (replicate (S n) (Some 0))
         (stored book (logged (OpenedRepository (repoFilePath f)) (start fs))) ∧
     opens (trace (stored book
                     (logged (OpenedRepository (URL:=URL) (repoFilePath f))
                        (start (DeployerImpl:=DeployerImpl) fs)))) = 1) ∧
  (∀ fs n, (opens (trace (final (calls (ContractsRepository f) n
               (start (URL:=URL) (DeployerImpl:=DeployerImpl) fs)))) ≤ 1)%nat).
Proof.
  split; [|split; [|split; [|split]]].
  - intros Hfresh book Hopen.
    rewrite ContractsRepository_first by done. rewrite Hopen.
    split; [done|]. split; [|done]. simpl.
    by rewrite lookup_app_r, Nat.sub_diag.
  - apply ContractsRepository_cached.
  - intros r w1 Hcall.
    destruct (ContractsRepository_returns _ _ _ _ Hcall) as [Hfired Hrepo].
    split; [done|]. split; [done|].
    split; [by eapply ContractsRepository_again|].
    split; [by eapply ContractsRepository_calls|].
    split.
    + intros Hfresh. rewrite ContractsRepository_first in Hcall by done.
      destruct (contract.OpenContractsRepository _ _); [|done].
      by injection Hcall as _ <-.
    + intros Hold. rewrite ContractsRepository_cached in Hcall by done.
      by injection Hcall as _ <-.
  - intros fs book n. apply ContractsRepository_calls_from_start.
  - intros fs n. apply ContractsRepository_opens_once.
Qed.

Ltac step :=
  unfold Deployer, SbitRPC, RPCPlatform, ConfigureBytesOutputFormat,
    ExpandJSONParams, SetFormatBytesWithPrefix, callSbitNewDeployer,
    callEthNewDeployer, callSbitNewRPC, fatal, emit, exit, unwind, getWorld,
    mbind, mret, Proc_bind, Proc_ret.

(** What [RPCPlatform] does, by cases on the two endpoint values. *)
Lemma RPCPlatform_cases f w :
  RPCPlatform f w =
    if String.eqb (sbitRPC f) "" then
      if String.eqb (ethRPC f) "" then Exit 1 (logged (Printed OutUnspecifiedRPC) w)
      else Ret RPCEthereum w
    else Ret RPCSbit w.
Proof.
  step. destruct (String.eqb (sbitRPC f) ""), (String.eqb (ethRPC f) ""); reflexivity.
Qed.

(** With neither endpoint set, [Deployer] reports the missing RPC url and
    ends the process, before anything is opened or constructed. *)
Lemma Deployer_neither f w :
  sbitRPC f = "" → ethRPC f = "" →
  Deployer ParseRequestURI sbit_NewDeployer eth_NewDeployer f w =
    Exit 1 (logged (Printed OutUnspecifiedRPC) w).
Proof. intros Hs He. step. by rewrite Hs, He. Qed.

(** With both endpoints set, both accepted as request URIs, and the
    repository at hand, [Deployer] calls [sbit.NewDeployer], then
    [eth.NewDeployer], and goes on with the result of the latter. *)
Lemma Deployer_both f w us ue r w1 d :
  sbitRPC f ≠ "" → ethRPC f ≠ "" →
  ParseRequestURI (sbitRPC f) = Some us →
  ParseRequestURI (ethRPC f) = Some ue →
  ContractsRepository f w = Ret r w1 →
  eth_NewDeployer ue r (S (length (trace w1))) = (Some d, None) →
  Deployer ParseRequestURI sbit_NewDeployer eth_NewDeployer f w =
    Ret d (logged (CalledEthNewDeployer ue r)
             (logged (CalledSbitNewDeployer us r (sbitSenderAddress f)) w1)).
Proof.
  intros Hs He Hus Hue Hcall Heth. step.
  rewrite (eqb_empty_false _ Hs), (eqb_empty_false _ He), Hus, Hue.
  cbv beta iota delta [negb]. rewrite Hcall.
  destruct (sbit_NewDeployer us r (sbitSenderAddress f) (length (trace w1)))
    as [d0 err0].
  rewrite (ContractsRepository_again _ _ _ _ Hcall) by reflexivity.
  cbv beta iota.
  replace (length (trace (logged (CalledSbitNewDeployer us r (sbitSenderAddress f)) w1)))
    with (S (length (trace w1))) by (simpl; rewrite length_app; simpl; lia).
  by rewrite Heth.
Qed.

(** With the account-chain endpoint set, a deployer that [Deployer]
    returns is one that [eth.NewDeployer] produced for that endpoint,
    whatever the other endpoint is. *)
Lemma Deployer_returns_eth f w d w' :
  ethRPC f ≠ "" →
  Deployer ParseRequestURI sbit_NewDeployer eth_NewDeployer f w = Ret d w' →
  ∃ ue r t, ParseRequestURI (ethRPC f) = Some ue ∧
            eth_NewDeployer ue r t = (Some d, None).
Proof.
  intros He. step. rewrite (eqb_empty_false _ He).
  cbv beta iota delta [negb].
  destruct (String.eqb (sbitRPC f) ""); cbv beta iota.
  - destruct (ParseRequestURI (ethRPC f)) as [ue|] eqn:Hue; [|done].
    destruct (ContractsRepository f w) as [r w1| |]; [|done..].
    destruct (eth_NewDeployer ue r _) as [[d'|] [e|]] eqn:Heth; try done.
    intros [= <- <-]. eauto.
  - destruct (ParseRequestURI (sbitRPC f)) as [us|]; [|done].
    destruct (ContractsRepository f w) as [r w1| |]; [|done..].
    destruct (sbit_NewDeployer us r _ _) as [d0 e0].
    destruct (ParseRequestURI (ethRPC f)) as [ue|] eqn:Hue; [|done].
    destruct (ContractsRepository f _) as [r' w2| |]; [|done..].
    destruct (eth_NewDeployer ue r' _) as [[d'|] [e|]] eqn:Heth; try done.
    intros [= <- <-]. eauto.
Qed.



(** C1 (as the code has it).  Configuring neither endpoint is a fatal
    configuration error: [RPCPlatform] and [Deployer] both print
    [errorUnspecifiedRPC] and end the process with exit code 1, before the
    repository is opened or a deployer constructed.  Configuring both
    endpoints is not an error: [RPCPlatform] returns a platform, [RPCSbit],
    and leaves the process as it was, and [Deployer] returns a deployer
    when both values are request URIs, the repository opens and
    [eth.NewDeployer] yields a deployer and no error. *)
Theorem neither_endpoint_fatal_both_accepted f w :
  (sbitRPC f = "" → ethRPC f = "" →
     RPCPlatform f w = Exit 1 (logged (Printed OutUnspecifiedRPC) w) ∧
     Deployer ParseRequestURI sbit_NewDeployer eth_NewDeployer f w =
       Exit 1 (logged (Printed OutUnspecifiedRPC) w)) ∧
  (sbitRPC f ≠ "" → ethRPC f ≠ "" →
     RPCPlatform f w = Ret RPCSbit w ∧
     ∀ us ue r w1 d,
       ParseRequestURI (sbitRPC f) = Some us →
       ParseRequestURI (ethRPC f) = Some ue →
       ContractsRepository f w = Ret r w1 →
       eth_NewDeployer ue r (S (length (trace w1))) = (Some d, None) →
       ∃ w', Deployer ParseRequestURI sbit_NewDeployer eth_NewDeployer f w =
               Ret d w').
Proof.
  split.
  - intros Hs He. split; [|by apply Deployer_neither].
    rewrite RPCPlatform_cases. by rewrite Hs, He.
  - intros Hs He. split.
    + rewrite RPCPlatform_cases. by rewrite eqb_empty_false.
    + intros us ue r w1 d Hus Hue Hcall Heth.
      eexists. by eapply Deployer_both.
Qed.

(** C10 (as the code has it).  With both endpoints set to non-empty
    values, [RPCPlatform] returns [RPCSbit], while [Deployer] goes by the
    account-chain endpoint: when both values are accepted by
    [url.ParseRequestURI], the repository opens and [eth.NewDeployer]
    yields a deployer and no error, [Deployer] returns that deployer,
    having called [sbit.NewDeployer] first and dropped its result; and a
    deployer that [Deployer] returns is always one made by
    [eth.NewDeployer].  When one of the two values is no request URI,
    [Deployer] prints it and ends the process with exit code 1. *)
Theorem both_endpoints_platform_sbit_deployer_eth f w :
  sbitRPC f ≠ "" → ethRPC f ≠ "" →
  RPCPlatform f w = Ret RPCSbit w ∧
  (∀ us ue r w1 d,
     ParseRequestURI (sbitRPC f) = Some us →
     ParseRequestURI (ethRPC f) = Some ue →
     ContractsRepository f w = Ret r w1 →
     eth_NewDeployer ue r (S (length (trace w1))) = (Some d, None) →
     Deployer ParseRequestURI sbit_NewDeployer eth_NewDeployer f w =
       Ret d (logged (CalledEthNewDeployer ue r)
                (logged (CalledSbitNewDeployer us r (sbitSenderAddress f)) w1))) ∧
  (∀ d w',
     Deployer ParseRequestURI sbit_NewDeployer eth_NewDeployer f w = Ret d w' →
     ∃ ue r t, ParseRequestURI (ethRPC f) = Some ue ∧
               eth_NewDeployer ue r t = (Some d, None)) ∧
  (ParseRequestURI (sbitRPC f) = None →
     Deployer ParseRequestURI sbit_NewDeployer eth_NewDeployer f w =
       Exit 1 (logged (Printed (OutInvalidRPCURL (sbitRPC f))) w)) ∧
  (∀ us r w1,
     ParseRequestURI (sbitRPC f) = Some us →
     ContractsRepository f w = Ret r w1 →
     ParseRequestURI (ethRPC f) = None →
     Deployer ParseRequestURI sbit_NewDeployer eth_NewDeployer f w =
       Exit 1 (logged (Printed (OutInvalidRPCURL (ethRPC f)))
                 (logged (CalledSbitNewDeployer us r (sbitSenderAddress f)) w1))).
Proof.
  intros Hs He. split; [|split; [|split; [|split]]].
  - rewrite RPCPlatform_cases. by rewrite eqb_empty_false.
  - intros us ue r w1 d. by apply Deployer_both.
  - intros d w'. by apply Deployer_returns_eth.
  - intros Hbad. step. by rewrite (eqb_empty_false _ Hs), Hbad.
  - intros us r w1 Hus Hcall Hbad. step.
    rewrite (eqb_empty_false _ Hs), (eqb_empty_false _ He), Hus, Hbad.
    cbv beta iota delta [negb]. rewrite Hcall.
    by destruct (sbit_NewDeployer us r _ _).
Qed.

(** C5.  The output mode is derived from the endpoint that is set.  In a
    process whose mode is still the initial one (no prefix),
    [ConfigureBytesOutputFormat] returns with the mode switched to "with
    prefix" exactly when the account-chain endpoint is set: an address is
    then rendered with the chain prefix, and it is rendered without it
    when that endpoint is not set, in particular when the UTXO-chain
    endpoint is the one configured.  Nothing else changes. *)
Theorem bytes_prefix_iff_eth_endpoint f w :
  formatBytesWithPrefix w = false →
  ∃ w', ConfigureBytesOutputFormat f w = Ret () w' ∧
    (formatBytesWithPrefix w' = true ↔ ethRPC f ≠ "") ∧
    (ethRPC f ≠ "" → ∀ bytes,
       contract.FormatBytes chainPrefix (formatBytesWithPrefix w') bytes =
         chainPrefix +:+ bytes) ∧
    (ethRPC f = "" → ∀ bytes,
       contract.FormatBytes chainPrefix (formatBytesWithPrefix w') bytes = bytes) ∧
    (sbitRPC f ≠ "" → ethRPC f = "" → formatBytesWithPrefix w' = false) ∧
    cli w' = cli w ∧ files w' = files w ∧ heap w' = heap w ∧ trace w' = trace w.
Proof.
  intros Hinit. step.
  destruct (String.eqb_spec (ethRPC f) "") as [He|He]; simpl.
  - eexists. split; [reflexivity|]. rewrite Hinit. repeat split; done.
  - eexists. split; [reflexivity|]. simpl. repeat split; done.
Qed.

Lemma clientsBuilt_app (t u : list (Event URL)) :
  clientsBuilt (t ++ u) = clientsBuilt t + clientsBuilt u.
Proof. unfold clientsBuilt. by rewrite List.filter_app, length_app. Qed.

(** What [SbitRPC] does: it calls [sbit.NewRPC] and hands on the result. *)
Lemma SbitRPC_cases f w :
  SbitRPC sbit_NewRPC f w =
    match sbit_NewRPC (sbitRPC f) (length (trace w)) with
    | (rpc, None) => Ret rpc (logged (CalledSbitNewRPC (sbitRPC f)) w)
    | (_, Some _) =>
        Exit 1 (logged (Printed (OutInvalidSbitRPCURL (sbitRPC f)))
                  (logged (CalledSbitNewRPC (sbitRPC f)) w))
    end.
Proof. step. by destruct (sbit_NewRPC _ _) as [rpc [e|]]. Qed.

Lemma SbitRPC_calls f n : ∀ w rs w',
  calls (SbitRPC sbit_NewRPC f) n w = Ret rs w' →
  length rs = n ∧ cli w' = cli w ∧
  clientsBuilt (trace w') = clientsBuilt (trace w) + n.
Proof.
  induction n as [|n IH]; intros w rs w'.
  - intros [= <- <-]. simpl. by rewrite Nat.add_0_r.
  - simpl. unfold mbind, Proc_bind at 1. rewrite SbitRPC_cases.
    destruct (sbit_NewRPC _ _) as [rpc [e|]]; [done|].
    unfold Proc_bind at 1.
    destruct (calls _ n _) as [rs' w''| |] eqn:Hrest; [|done..].
    intros [= <- <-]. apply IH in Hrest as (Hlen & Hcli & Hbuilt).
    split; [simpl; by rewrite Hlen|]. split; [by rewrite Hcli|].
    rewrite Hbuilt. simpl trace. rewrite clientsBuilt_app.
    change (clientsBuilt [CalledSbitNewRPC (sbitRPC f)]) with 1. lia.
Qed.

(** C7 (as the code has it).  The RPC client is no lazy singleton: every
    call of [SbitRPC] calls [sbit.NewRPC] again and returns what that call
    produced, and stores nothing in the [solarCLI] value; [n] calls that
    return have constructed [n] clients. *)
Theorem SbitRPC_constructs_on_every_call f w :
  SbitRPC sbit_NewRPC f w =
    match sbit_NewRPC (sbitRPC f) (length (trace w)) with
    | (rpc, None) => Ret rpc (logged (CalledSbitNewRPC (sbitRPC f)) w)
    | (_, Some _) =>
        Exit 1 (logged (Printed (OutInvalidSbitRPCURL (sbitRPC f)))
                  (logged (CalledSbitNewRPC (sbitRPC f)) w))
    end ∧
  cli (final (SbitRPC sbit_NewRPC f w)) = cli w ∧
  clientsBuilt (trace (final (SbitRPC sbit_NewRPC f w))) =
    S (clientsBuilt (trace w)) ∧
  (∀ n rs w', calls (SbitRPC sbit_NewRPC f) n w = Ret rs w' →
     length rs = n ∧ cli w' = cli w ∧
     clientsBuilt (trace w') = clientsBuilt (trace w) + n).
Proof.
  split; [apply SbitRPC_cases|]. rewrite SbitRPC_cases.
  split; [|split].
  - by destruct (sbit_NewRPC _ _) as [rpc [e|]].
  - destruct (sbit_NewRPC _ _) as [rpc [e|]]; simpl;
      rewrite !clientsBuilt_app;
      change (clientsBuilt [CalledSbitNewRPC (sbitRPC f)]) with 1;
      change (clientsBuilt [Printed (URL:=URL) (OutInvalidSbitRPCURL (sbitRPC f))])
        with 0; lia.
  - intros n. apply SbitRPC_calls.
Qed.

(** The closure of [ExpandJSONParams] over a repository that holds
    [book]: the rendered address of a bound name, a panic for any other. *)
Lemma addressOf_book w p book key :
  heap w !! p = Some book →
  addressOf chainPrefix w (Some p) key =
    match book !! key with
    | Some c =>
        Done (contract.FormatBytes chainPrefix (formatBytesWithPrefix w)
                (contract.Address c))
    | None => Panicked (InvalidAddressExpansion key)
    end.
Proof. intros Hheap. unfold addressOf. simpl. by rewrite Hheap. Qed.

(** A text that holds a token for a name the book does not bind is not
    expanded: the pass ends in the panic raised for an unbound name. *)
Lemma Expand_unbound w p book text name :
  heap w !! p = Some book →
  varstr.holdsToken text name →
  book !! name = None →
  ∃ key, book !! key = None ∧
    varstr.Expand (addressOf chainPrefix w (Some p)) text =
      Panicked (InvalidAddressExpansion key).
Proof.
  intros Hheap (Hname & pre & post & Hform) Hunbound.
  set (m := addressOf chainPrefix w (Some p)).
  assert (Hm : ∀ key e, m key = Panicked e →
            e = InvalidAddressExpansion key ∧ book !! key = None).
  { intros key e. unfold m. rewrite (addressOf_book _ _ book) by done.
    destruct (book !! key); [done|]. by intros [= <-]. }
  assert (Hhere : m name = Panicked (InvalidAddressExpansion name)).
  { unfold m. rewrite (addressOf_book _ _ book) by done. by rewrite Hunbound. }
  assert (Hrun : varstr.Expand m text =
            unwindBind (varstr.Expand m pre) (λ a,
              unwindBind (m name) (λ v,
                unwindBind (varstr.Expand m post) (λ b, Done (a +:+ v +:+ b))))).
  { destruct Hform as [[-> Hpost] | ->].
    - by apply Expand_plain_token.
    - by apply Expand_braced_token. }
  rewrite Hrun, Hhere.
  destruct (varstr.Expand m pre) as [a|e] eqn:Hpre; simpl; [eauto|].
  apply expandFrom_panic_origin in Hpre as [key Hkey].
  apply Hm in Hkey as [-> Hkey]. eauto.
Qed.

(** C2 (as the code has it).  For every text that holds a token [$Name]
    or [${Name}] whose name the repository does not bind,
    [ExpandJSONParams] does not return: it unwinds with the panic value
    of an unbound name, "Invalid address expansion", a non-local abort and
    no error result, and hands no expanded text to its caller. *)
Theorem unbound_placeholder_panics f w text name p w1 book :
  varstr.holdsToken text name →
  ContractsRepository f w = Ret (Some p) w1 →
  heap w1 !! p = Some book →
  book !! name = None →
  aborted (ExpandJSONParams chainPrefix f text w) ∧
  ∃ key, book !! key = None ∧
    ExpandJSONParams chainPrefix f text w =
      Panic (InvalidAddressExpansion key) w1.
Proof.
  intros Htoken Hcall Hheap Hunbound.
  destruct (Expand_unbound w1 p book text name) as (key & Hkey & Hrun); [done..|].
  assert (Hpanic : ExpandJSONParams chainPrefix f text w =
                     Panic (InvalidAddressExpansion key) w1).
  { step. rewrite Hcall. cbv beta iota. by rewrite Hrun. }
  rewrite Hpanic. split; [exact I|eauto].
Qed.

(** C4.  Expansion replaces each token [$Name] and each token [${Name}]
    with the resolver's result for [Name], whatever the text around it
    and whatever the resolver: the text before the token is expanded, the
    resolver's result stands in for the token, and the pass goes on behind
    it.  With a resolver that maps [Foo] to [0xABC], ["addr=$Foo"] and
    ["addr=${Foo}"] both expand to ["addr=0xABC"]; with [Bar] absent from
    the book behind the resolver, ["addr=$Bar"] fails with the
    unknown-reference panic for [Bar]. *)
Theorem Expand_replaces_tokens (m : string → Unwind error string) :
  (∀ pre name post,
     varstr.isName name = true → varstr.continuesName post = false →
     varstr.Expand m (pre +:+ "$" +:+ name +:+ post) =
       unwindBind (varstr.Expand m pre) (λ a,
         unwindBind (m name) (λ v,
           unwindBind (varstr.Expand m post) (λ b, Done (a +:+ v +:+ b))))) ∧
  (∀ pre name post,
     varstr.isName name = true →
     varstr.Expand m (pre +:+ "${" +:+ name +:+ "}" +:+ post) =
       unwindBind (varstr.Expand m pre) (λ a,
         unwindBind (m name) (λ v,
           unwindBind (varstr.Expand m post) (λ b, Done (a +:+ v +:+ b))))) ∧
  (m "Foo" = Done "0xABC" →
     varstr.Expand m "addr=$Foo" = Done "addr=0xABC" ∧
     varstr.Expand m "addr=${Foo}" = Done "addr=0xABC") ∧
  (∀ w p book,
     heap w !! p = Some book → book !! "Bar" = None →
     varstr.Expand (addressOf chainPrefix w (Some p)) "addr=$Bar" =
       Panicked (InvalidAddressExpansion "Bar")).
Proof.
  split; [|split; [|split]].
  - intros pre name post. apply Expand_plain_token.
  - intros pre name post. apply Expand_braced_token.
  - intros Hfoo.
    split.
    + change "addr=$Foo" with ("addr=" +:+ "$" +:+ "Foo" +:+ "").
      rewrite Expand_plain_token by reflexivity. by rewrite Hfoo.
    + change "addr=${Foo}" with ("addr=" +:+ "${" +:+ "Foo" +:+ "}" +:+ "").
      rewrite Expand_braced_token by reflexivity. by rewrite Hfoo.
  - intros w p book Hheap Hbar.
    change "addr=$Bar" with ("addr=" +:+ "$" +:+ "Bar" +:+ "").
    rewrite Expand_plain_token by reflexivity.
    by rewrite (addressOf_book _ _ book), Hbar.
Qed.

End solar_facts.

(** ** Confirmation *)

Section deployer_facts.
Import deployer.

(** The polling loop leaves the record untouched but for its status and
    block, and a confirmation without error leaves it [Confirmed]. *)
Lemma await_success chain fuel n d asked c :
  await chain fuel n d asked = Some c → err c = None →
  contract.status (record c) = contract.Confirmed.
Proof.
  revert n asked. induction fuel as [|fuel IH]; intros n asked; [done|].
  simpl. destruct (chain _ n).
  - apply IH.
  - by intros [= <-].
  - by intros [= <-].
Qed.

Lemma confirmContract_confirmed chain fuel d :
  contract.status d = contract.Confirmed →
  confirmContract chain fuel d = Some {| err := None; record := d; sent := [] |}.
Proof. intros Hd. unfold confirmContract. by rewrite Hd. Qed.

(** C9.  [ConfirmContract] is idempotent.  On a record whose status is
    already [Confirmed] the call returns at once, whatever the chain
    answers and however long the caller would wait, with no error, the
    record unchanged and nothing sent to the backend; and so does every
    call that follows a confirmation that succeeded. *)
Theorem ConfirmContract_idempotent chain fuel d :
  contract.status d = contract.Confirmed →
  confirmContract chain fuel d = Some {| err := None; record := d; sent := [] |} ∧
  (∀ c, confirmContract chain fuel d = Some c →
     confirmContract chain fuel (record c) = Some c) ∧
  (∀ chain0 fuel0 d0 c,
     confirmContract chain0 fuel0 d0 = Some c → err c = None →
     confirmContract chain fuel (record c) =
       Some {| err := None; record := record c; sent := [] |}).
Proof.
  intros Hd. split; [by apply confirmContract_confirmed|]. split.
  - intros c. rewrite confirmContract_confirmed by done.
    intros [= <-]. simpl. by apply confirmContract_confirmed.
  - intros chain0 fuel0 d0 c Hfirst Hok.
    apply confirmContract_confirmed.
    unfold confirmContract in Hfirst.
    destruct (contract.status d0) eqn:Hd0.
    + by eapply await_success.
    + by injection Hfirst as <-.
    + by injection Hfirst as <-.
Qed.

End deployer_facts.

(** ** The model at work on concrete inputs *)

Section runs.
Import solar fake.

(** Both endpoints set: no configuration error is reported.
    [RPCPlatform] returns a platform, and with collaborators that succeed
    [Deployer] returns a deployer. *)
Lemma both_endpoints_no_configuration_error :
  RPCPlatform (flags "http://localhost:3889" "http://localhost:8545")
    (fake.start noFiles) = Ret RPCSbit (fake.start noFiles) ∧
  ∃ w', fake.Deployer (flags "http://localhost:3889" "http://localhost:8545")
          (fake.start noFiles) =
        Ret (EthDeployer "http://localhost:8545" (Some 0) 2) w'.
Proof. split; [reflexivity|]. eexists. reflexivity. Qed.

Lemma neither_endpoint_fatal_both_accepted_witness :
  (RPCPlatform (flags "" "") (fake.start noFiles) =
     Exit 1 (logged (Printed OutUnspecifiedRPC) (fake.start noFiles)) ∧
   fake.Deployer (flags "" "") (fake.start noFiles) =
     Exit 1 (logged (Printed OutUnspecifiedRPC) (fake.start noFiles))) ∧
  RPCPlatform (flags "http://localhost:3889" "http://localhost:8545")
    (fake.start noFiles) = Ret RPCSbit (fake.start noFiles) ∧
  ∃ w', fake.Deployer (flags "http://localhost:3889" "http://localhost:8545")
          (fake.start noFiles) =
        Ret (EthDeployer "http://localhost:8545" (Some 0) 2) w'.
Proof.
  split; [|split].
  - apply (neither_endpoint_fatal_both_accepted
             ParseRequestURI sbit_NewDeployer eth_NewDeployer
             (flags "" "") (fake.start noFiles)); reflexivity.
  - apply (neither_endpoint_fatal_both_accepted
             ParseRequestURI sbit_NewDeployer eth_NewDeployer
             (flags "http://localhost:3889" "http://localhost:8545")
             (fake.start noFiles)); discriminate.
  - destruct (neither_endpoint_fatal_both_accepted
                ParseRequestURI sbit_NewDeployer eth_NewDeployer
                (flags "http://localhost:3889" "http://localhost:8545")
                (fake.start noFiles)) as [_ Hboth].
    destruct Hboth as [_ Hdeployer]; [discriminate..|].
    apply (Hdeployer "http://localhost:3889" "http://localhost:8545" (Some 0)
             (stored ∅ (logged (OpenedRepository "solar.development.json")
                          (fake.start noFiles))));
      reflexivity.
Defined.

(** Both endpoints set, the UTXO-chain one to a value that is no request
    URI: [Deployer] ends the process and returns no deployer at all. *)
Lemma both_endpoints_invalid_url_no_deployer :
  sbitRPC (flags "localhost" "http://localhost:8545") ≠ "" ∧
  ethRPC (flags "localhost" "http://localhost:8545") ≠ "" ∧
  fake.Deployer (flags "localhost" "http://localhost:8545") (fake.start noFiles) =
    Exit 1 (logged (Printed (OutInvalidRPCURL "localhost")) (fake.start noFiles)).
Proof. repeat split; discriminate. Qed.

Lemma both_endpoints_platform_sbit_deployer_eth_witness :
  RPCPlatform (flags "http://localhost:3889" "http://localhost:8545")
    (fake.start noFiles) = Ret RPCSbit (fake.start noFiles) ∧
  fake.Deployer (flags "http://localhost:3889" "http://localhost:8545")
    (fake.start noFiles) =
    Ret (EthDeployer "http://localhost:8545" (Some 0) 2)
      (logged (CalledEthNewDeployer "http://localhost:8545" (Some 0))
         (logged (CalledSbitNewDeployer "http://localhost:3889" (Some 0) "")
            (stored ∅ (logged (OpenedRepository "solar.development.json")
                         (fake.start noFiles))))).
Proof.
  pose proof (both_endpoints_platform_sbit_deployer_eth
                ParseRequestURI sbit_NewDeployer eth_NewDeployer
                (flags "http://localhost:3889" "http://localhost:8545")
                (fake.start noFiles)) as Hboth.
  destruct Hboth as (Hplatform & Hdeployer & _); [discriminate..|].
  split; [exact Hplatform|].
  apply (Hdeployer "http://localhost:3889" "http://localhost:8545"); reflexivity.
Defined.

(** A placeholder for a name the repository does not bind: the call
    panics; it does not return, with an error or otherwise. *)
Lemma unbound_placeholder_is_a_panic :
  varstr.holdsToken "addr=$Bar" "Bar" ∧
  fake.ExpandJSONParams (flags "http://localhost:3889" "") "addr=$Bar"
    (fake.start oneFile) =
    Panic (InvalidAddressExpansion "Bar")
      (stored {[ "Foo" := foo ]}
         (logged (OpenedRepository "solar.development.json") (fake.start oneFile))) ∧
  aborted (fake.ExpandJSONParams (flags "http://localhost:3889" "") "addr=$Bar"
             (fake.start oneFile)).
Proof.
  split; [|split; [reflexivity|exact I]].
  split; [reflexivity|]. exists "addr=", "". by left.
Qed.

Lemma unbound_placeholder_panics_witness :
  aborted (fake.ExpandJSONParams (flags "http://localhost:3889" "")
             "[${Bar}, $Foo]" (fake.start oneFile)) ∧
  ∃ key, ({[ "Foo" := foo ]} : gmap string contract.DeployedContract) !! key = None ∧
    fake.ExpandJSONParams (flags "http://localhost:3889" "")
      "[${Bar}, $Foo]" (fake.start oneFile) =
      Panic (InvalidAddressExpansion key)
        (stored {[ "Foo" := foo ]}
           (logged (OpenedRepository "solar.development.json")
              (fake.start oneFile))).
Proof.
  apply (unbound_placeholder_panics "0x"
           (flags "http://localhost:3889" "") (fake.start oneFile)
           "[${Bar}, $Foo]" "Bar" 0 _ {[ "Foo" := foo ]}).
  - split; [reflexivity|].
    exists "[", ", $Foo]". by right.
  - reflexivity.
  - reflexivity.
  - reflexivity.
Defined.

Lemma missing_file_empty_book_malformed_file_fatal_witness :
  (contract.OpenContractsRepository noFiles "solar.development.json" = inl ∅ ∧
   ∃ w1, ContractsRepository (flags "http://localhost:3889" "")
           (fake.start noFiles) = Ret (Some 0) w1 ∧
         heap w1 !! 0 = Some ∅) ∧
  (contract.OpenContractsRepository badFile "solar.development.json" =
     inr (FileError "solar.development.json") ∧
   ContractsRepository (flags "http://localhost:3889" "") (fake.start badFile) =
     Exit 1 (logged (Printed (OutErrorOpeningRepo "solar.development.json"
                                (FileError "solar.development.json")))
               (logged (OpenedRepository "solar.development.json")
                  (fake.start badFile))) ∧
   cli (final (ContractsRepository (flags "http://localhost:3889" "")
                 (fake.start badFile))) = cli (fake.start badFile) ∧
   heap (final (ContractsRepository (flags "http://localhost:3889" "")
                  (fake.start badFile))) = heap (fake.start badFile)).
Proof.
  split.
  - apply (missing_file_empty_book_malformed_file_fatal
             (flags "http://localhost:3889" "") (fake.start noFiles));
      reflexivity.
  - apply (missing_file_empty_book_malformed_file_fatal
             (flags "http://localhost:3889" "") (fake.start badFile) eq_refl)
      with (raw := "{").
    reflexivity.
Defined.

Lemma Expand_replaces_tokens_witness :
  varstr.Expand fooResolver ("<" +:+ "$" +:+ "Foo" +:+ "> and more") =
    Done "<0xABC> and more" ∧
  varstr.Expand fooResolver ("<" +:+ "${" +:+ "Foo" +:+ "}" +:+ "_1>") =
    Done "<0xABC_1>" ∧
  varstr.Expand fooResolver "addr=$Foo" = Done "addr=0xABC" ∧
  varstr.Expand fooResolver "addr=${Foo}" = Done "addr=0xABC" ∧
  varstr.Expand
    (addressOf "0x" (stored {[ "Foo" := foo ]} (fake.start oneFile)) (Some 0))
    "addr=$Bar" = Panicked (InvalidAddressExpansion "Bar").
Proof.
  destruct (Expand_replaces_tokens (URL:=string) (DeployerImpl:=Impl) "0x" fooResolver)
    as (Hplain & Hbraced & Hfoo & Hbar).
  split; [|split; [|split; [|split]]].
  - rewrite (Hplain "<" "Foo" "> and more") by reflexivity. reflexivity.
  - rewrite (Hbraced "<" "Foo" "_1>") by reflexivity. reflexivity.
  - by apply Hfoo.
  - by apply Hfoo.
  - by apply (Hbar _ 0 {[ "Foo" := foo ]}).
Defined.

Lemma bytes_prefix_iff_eth_endpoint_witness :
  (∃ w', ConfigureBytesOutputFormat (flags "" "http://localhost:8545")
           (fake.start noFiles) = Ret () w' ∧
         contract.FormatBytes "0x" (formatBytesWithPrefix w') "ABC" = "0xABC") ∧
  (∃ w', ConfigureBytesOutputFormat (flags "http://localhost:3889" "")
           (fake.start noFiles) = Ret () w' ∧
         contract.FormatBytes "0x" (formatBytesWithPrefix w') "ABC" = "ABC").
Proof.
  split.
  - destruct (bytes_prefix_iff_eth_endpoint "0x"
                (flags "" "http://localhost:8545") (fake.start noFiles) eq_refl)
      as (w' & Hrun & _ & Hwith & _).
    exists w'. split; [exact Hrun|]. apply Hwith. discriminate.
  - destruct (bytes_prefix_iff_eth_endpoint "0x"
                (flags "http://localhost:3889" "") (fake.start noFiles) eq_refl)
      as (w' & Hrun & _ & _ & Hwithout & _).
    exists w'. split; [exact Hrun|]. by apply Hwithout.
Defined.

Lemma repository_opened_once_and_cached_witness :
  (ContractsRepository (flags "http://localhost:3889" "") (fake.start oneFile) =
     Ret (Some 0)
       (stored {[ "Foo" := foo ]}
          (logged (OpenedRepository "solar.development.json")
             (fake.start oneFile))) ∧
   heap (stored {[ "Foo" := foo ]}
           (logged (OpenedRepository "solar.development.json")
              (fake.start oneFile))) !! 0 = Some {[ "Foo" := foo ]}) ∧
  calls (ContractsRepository (flags "" "http://localhost:8545")) 3
    (stored {[ "Foo" := foo ]}
       (logged (OpenedRepository "solar.development.json") (fake.start oneFile))) =
  Ret [Some 0; Some 0; Some 0]
    (stored {[ "Foo" := foo ]}
       (logged (OpenedRepository "solar.development.json") (fake.start oneFile))) ∧
  calls (ContractsRepository (flags "http://localhost:3889" "")) 3
    (fake.start oneFile) =
  Ret [Some 0; Some 0; Some 0]
    (stored {[ "Foo" := foo ]}
       (logged (OpenedRepository "solar.development.json") (fake.start oneFile))).
Proof.
  destruct (repository_opened_once_and_cached (URL:=string) (DeployerImpl:=Impl)
              (flags "http://localhost:3889" "") (fake.start oneFile))
    as (Hfirst & _ & Hlater & Hfresh & _).
  destruct (Hfirst eq_refl {[ "Foo" := foo ]} eq_refl) as (Hcall & Hbook & _).
  split; [by split|]. split.
  - by apply (Hlater (Some 0) _ Hcall).
  - by apply (Hfresh oneFile {[ "Foo" := foo ]} 2).
Defined.

(** Two calls of [SbitRPC] in a row: [sbit.NewRPC] is called twice, and
    the two clients returned are those two calls' results, not one cached
    instance. *)
Lemma SbitRPC_twice_two_clients :
  ∃ w', calls (fake.SbitRPC (flags "http://localhost:3889" "")) 2
          (fake.start noFiles) =
        Ret [Some ("http://localhost:3889", 0); Some ("http://localhost:3889", 1)] w' ∧
        trace w' = [CalledSbitNewRPC "http://localhost:3889";
                    CalledSbitNewRPC "http://localhost:3889"] ∧
        cli w' = cli (fake.start noFiles).
Proof. eexists. repeat split. Qed.

Lemma SbitRPC_constructs_on_every_call_witness :
  clientsBuilt
    (trace (logged (CalledSbitNewRPC "http://localhost:3889")
              (logged (CalledSbitNewRPC "http://localhost:3889")
                 (fake.start noFiles)))) =
  clientsBuilt (trace (fake.start noFiles)) + 2.
Proof.
  apply (SbitRPC_constructs_on_every_call sbit_NewRPC
           (flags "http://localhost:3889" "") (fake.start noFiles))
    with (rs := [Some ("http://localhost:3889", 0); Some ("http://localhost:3889", 1)]).
  reflexivity.
Defined.

Lemma repository_file_by_convention_witness :
  (repoFilePath (flags "http://localhost:3889" "") = "solar.development.json" ∧
   ∃ rest, trace (final (ContractsRepository (flags "http://localhost:3889" "")
                           (fake.start noFiles))) =
           OpenedRepository "solar.development.json" :: rest) ∧
  (repoFilePath (flagsAt "contracts.json" "http://localhost:3889" "") =
     "contracts.json" ∧
   ∃ rest, trace (final (ContractsRepository
                           (flagsAt "contracts.json" "http://localhost:3889" "")
                           (fake.start noFiles))) =
           OpenedRepository "contracts.json" :: rest).
Proof.
  split.
  - apply (repository_file_by_convention
             (flags "http://localhost:3889" "") (fake.start noFiles) eq_refl).
    reflexivity.
  - apply (repository_file_by_convention
             (flagsAt "contracts.json" "http://localhost:3889" "")
             (fake.start noFiles) eq_refl).
    discriminate.
Defined.

Lemma ConfirmContract_idempotent_witness :
  deployer.confirmContract (λ _ _, deployer.NotYet) 0 foo =
    Some {| deployer.err := None; deployer.record := foo; deployer.sent := [] |}.
Proof.
  apply (ConfirmContract_idempotent (λ _ _, deployer.NotYet) 0 foo eq_refl).
Defined.

End runs.

(** * The rest of the command line *)

(** ** Splitting at a separator *)

Lemma strings_Split_not_nil (s : string) (sep : ascii) :
  strings_Split s sep ≠ [].
Proof.
  destruct s as [|c s]; simpl; [done|].
  destruct (Ascii.eqb c sep); [done|]. by destruct (strings_Split s sep).
Qed.

Lemma strings_Split_cons (c sep : ascii) (s : string) :
  strings_Split (String c s) sep =
    if Ascii.eqb c sep then "" :: strings_Split s sep
    else match strings_Split s sep with
         | piece :: pieces => String c piece :: pieces
         | [] => [String c ""]
         end.
Proof. reflexivity. Qed.

(** Joining the pieces with the separator gives the text back. *)
Lemma strings_Join_Split (s : string) (sep : ascii) :
  strings_Join (strings_Split s sep) (String sep "") = s.
Proof.
  induction s as [|c s IH]; [reflexivity|].
  rewrite strings_Split_cons.
  pose proof (strings_Split_not_nil s sep) as Hne.
  destruct (Ascii.eqb_spec c sep) as [->|Hc].
  - destruct (strings_Split s sep) as [|piece pieces] eqn:Hs; [done|].
    change (strings_Join ("" :: piece :: pieces) (String sep ""))
      with ("" +:+ String sep "" +:+ strings_Join (piece :: pieces) (String sep "")).
    by rewrite IH.
  - destruct (strings_Split s sep) as [|piece pieces] eqn:Hs; [done|].
    destruct pieces as [|piece' pieces].
    + simpl in *. by rewrite IH.
    + change (strings_Join (String c piece :: piece' :: pieces) (String sep ""))
        with (String c (piece +:+ String sep "" +:+
                strings_Join (piece' :: pieces) (String sep ""))).
      change (strings_Join (piece :: piece' :: pieces) (String sep ""))
        with (piece +:+ String sep "" +:+
                strings_Join (piece' :: pieces) (String sep "")) in IH.
      by rewrite IH.
Qed.

(** No piece holds the separator. *)
Lemma strings_Split_pieces (s : string) (sep : ascii) :
  Forall (λ piece, occurrences sep piece = 0) (strings_Split s sep).
Proof.
  induction s as [|c s IH]; [by repeat constructor|].
  rewrite strings_Split_cons.
  destruct (Ascii.eqb c sep) eqn:Hc; [by constructor|].
  destruct (strings_Split s sep) as [|piece pieces].
  - repeat constructor. simpl. by rewrite Hc.
  - inversion IH as [|? ? Hpiece Hpieces]; subst.
    constructor; [|done]. simpl. by rewrite Hc.
Qed.

(** There is one piece more than there are separators. *)
Lemma strings_Split_length (s : string) (sep : ascii) :
  length (strings_Split s sep) = S (occurrences sep s).
Proof.
  induction s as [|c s IH]; [reflexivity|].
  rewrite strings_Split_cons. simpl occurrences.
  destruct (Ascii.eqb c sep); simpl; [by rewrite IH|].
  destruct (strings_Split s sep); simpl in *; lia.
Qed.

Lemma strings_Split_append (piece rest : string) (sep : ascii) :
  occurrences sep piece = 0 →
  strings_Split (piece +:+ String sep rest) sep = piece :: strings_Split rest sep.
Proof.
  intros Hpiece. induction piece as [|c piece IH].
  - rewrite append_empty_l, strings_Split_cons. by rewrite Ascii.eqb_refl.
  - simpl in Hpiece. rewrite append_cons, strings_Split_cons.
    destruct (Ascii.eqb c sep); [done|]. by rewrite IH.
Qed.

Lemma strings_Split_one (piece : string) (sep : ascii) :
  occurrences sep piece = 0 → strings_Split piece sep = [piece].
Proof.
  intros Hpiece. induction piece as [|c piece IH]; [reflexivity|].
  simpl in Hpiece. rewrite strings_Split_cons.
  destruct (Ascii.eqb c sep); [done|]. by rewrite IH.
Qed.

(** Pieces without separator, joined and split again, come back as they
    were. *)
Lemma strings_Split_Join (pieces : list string) (sep : ascii) :
  pieces ≠ [] →
  Forall (λ piece, occurrences sep piece = 0) pieces →
  strings_Split (strings_Join pieces (String sep "")) sep = pieces.
Proof.
  intros Hne Hpieces. induction Hpieces as [|piece pieces Hpiece Hrest IH]; [done|].
  destruct pieces as [|piece' pieces].
  - by apply strings_Split_one.
  - change (strings_Join (piece :: piece' :: pieces) (String sep ""))
      with (piece +:+ String sep (strings_Join (piece' :: pieces) (String sep ""))).
    rewrite strings_Split_append by done. by rewrite IH.
Qed.

(** ** Compiler options *)

Section SolcOptions_facts.
Import solar.

(** The text that [SolcOptions] splits: the flag, or the working directory
    when the flag is empty. *)
Lemma SolcOptions_cases f Getwd :
  SolcOptions f Getwd =
    if String.eqb (solcAllowPaths f) "" then
      match Getwd with
      | inr err => inr (Wrap err "solc options")
      | inl cwd => inl {| NoOptimize := negb (solcOptimize f);
                          AllowPaths := strings_Split cwd "," |}
      end
    else inl {| NoOptimize := negb (solcOptimize f);
                AllowPaths := strings_Split (solcAllowPaths f) "," |}.
Proof.
  unfold SolcOptions. destruct (String.eqb _ _); [|done]. by destruct Getwd.
Qed.

(** X1.  The allowed paths are the comma-separated pieces of [--allow-paths],
    or of the working directory when the flag is empty: there is at least
    one path, one more than there are commas; no path holds a comma;
    joined with commas the paths give the text back; and the optimizer is
    off exactly when [--optimize] is false. *)
Theorem SolcOptions_paths f Getwd options :
  SolcOptions f Getwd = inl options →
  ∃ text,
    (if String.eqb (solcAllowPaths f) "" then Getwd = inl text
     else text = solcAllowPaths f) ∧
    strings_Join (AllowPaths options) "," = text ∧
    length (AllowPaths options) = S (occurrences "," text) ∧
    Forall (λ path, occurrences "," path = 0) (AllowPaths options) ∧
    NoOptimize options = negb (solcOptimize f).
Proof.
  rewrite SolcOptions_cases.
  destruct (String.eqb (solcAllowPaths f) "").
  - destruct Getwd as [cwd|err]; [|done]. intros [= <-]. exists cwd. simpl.
    split; [done|]. split; [apply strings_Join_Split|].
    split; [apply strings_Split_length|]. split; [apply strings_Split_pieces|done].
  - intros [= <-]. exists (solcAllowPaths f). simpl.
    split; [done|]. split; [apply strings_Join_Split|].
    split; [apply strings_Split_length|]. split; [apply strings_Split_pieces|done].
Qed.

(** X2.  [SolcOptions] fails in one case only: [--allow-paths] is empty and the
    working directory cannot be had; the error is that of [os.Getwd],
    wrapped with "solc options".  With the flag set the working directory
    plays no part. *)
Theorem SolcOptions_fails_without_cwd f Getwd :
  (∀ wrapped, SolcOptions f Getwd = inr wrapped ↔
     solcAllowPaths f = "" ∧
     ∃ err, Getwd = inr err ∧ wrapped = Wrap err "solc options") ∧
  (solcAllowPaths f ≠ "" →
     ∀ Getwd', SolcOptions f Getwd' = SolcOptions f Getwd).
Proof.
  split.
  - intros wrapped. rewrite SolcOptions_cases.
    destruct (String.eqb_spec (solcAllowPaths f) "") as [Hflag|Hflag].
    + destruct Getwd as [cwd|err].
      * split; [done|]. by intros (_ & err & [=] & _).
      * split.
        -- intros [= <-]. eauto.
        -- by intros (_ & err' & [= <-] & ->).
    + split; [done|]. by intros [? _].
  - intros Hflag Getwd'. rewrite !SolcOptions_cases.
    by rewrite (proj2 (String.eqb_neq _ _) Hflag).
Qed.

(** X3.  A list of paths given with commas between them is the list of allowed
    paths, path for path, provided no path holds a comma itself. *)
Theorem SolcOptions_paths_as_given f Getwd paths :
  solcAllowPaths f = strings_Join paths "," →
  solcAllowPaths f ≠ "" →
  Forall (λ path, occurrences "," path = 0) paths →
  SolcOptions f Getwd =
    inl {| NoOptimize := negb (solcOptimize f); AllowPaths := paths |}.
Proof.
  intros Hflag Hne Hpaths. rewrite SolcOptions_cases.
  rewrite (proj2 (String.eqb_neq _ _) Hne), Hflag.
  rewrite strings_Split_Join; [done| |done].
  intros ->. by rewrite Hflag in Hne.
Qed.

(** X4.  A working directory whose name holds a comma is not taken as one path:
    it is cut at the comma. *)
Theorem SolcOptions_cwd_with_comma f front back :
  solcAllowPaths f = "" →
  occurrences "," front = 0 → occurrences "," back = 0 →
  SolcOptions f (inl (front +:+ "," +:+ back)) =
    inl {| NoOptimize := negb (solcOptimize f); AllowPaths := [front; back] |}.
Proof.
  intros Hflag Hfront Hback. rewrite SolcOptions_cases, Hflag. simpl.
  change ("," +:+ back) with (String "," back).
  rewrite strings_Split_append by done. by rewrite strings_Split_one.
Qed.

End SolcOptions_facts.

(** ** Selection, failure and the state the accessors keep *)

Section accessor_facts.
Import solar.
Context {URL DeployerImpl RPCClient : Type}.
Variable ParseRequestURI : string → option URL.
Variable sbit_NewDeployer :
  URL → option nat → string → nat → option DeployerImpl * option error.
Variable eth_NewDeployer :
  URL → option nat → nat → option DeployerImpl * option error.
Variable sbit_NewRPC : string → nat → option RPCClient * option error.
Variable chainPrefix : string.

Implicit Types (f : Flags) (w : World URL DeployerImpl).

Local Abbreviation Deployer' :=
  (Deployer ParseRequestURI sbit_NewDeployer eth_NewDeployer).

#[local] Existing Instance Proc_ret.
#[local] Existing Instance Proc_bind.

Ltac open_up :=
  unfold Deployer, SbitRPC, RPCPlatform, ConfigureBytesOutputFormat,
    ExpandJSONParams, SetFormatBytesWithPrefix, callSbitNewDeployer,
    callEthNewDeployer, callSbitNewRPC, fatal, emit, exit, unwind, getWorld,
    mbind, mret, Proc_bind, Proc_ret.

(** What [Deployer] does with the UTXO-chain endpoint alone. *)
Lemma Deployer_sbit_only f w us r w1 :
  sbitRPC f ≠ "" → ethRPC f = "" →
  ParseRequestURI (sbitRPC f) = Some us →
  ContractsRepository f w = Ret r w1 →
  Deployer' f w =
    let w2 := logged (CalledSbitNewDeployer us r (sbitSenderAddress f)) w1 in
    match sbit_NewDeployer us r (sbitSenderAddress f) (length (trace w1)) with
    | (None, _) => Exit 1 (logged (Printed OutUnspecifiedRPC) w2)
    | (Some d, Some err) => Exit 1 (logged (Printed (OutNewDeployerError err)) w2)
    | (Some d, None) => Ret d w2
    end.
Proof.
  intros Hs He Hus Hcall. open_up.
  rewrite (proj2 (String.eqb_neq _ _) Hs), He, Hus.
  change (String.eqb "" "") with true.
  cbv beta iota delta [negb]. rewrite Hcall. simpl.
  by destruct (sbit_NewDeployer us r _ _) as [[d|] [err|]].
Qed.

(** What [Deployer] does with the account-chain endpoint alone. *)
Lemma Deployer_eth_only f w ue r w1 :
  sbitRPC f = "" → ethRPC f ≠ "" →
  ParseRequestURI (ethRPC f) = Some ue →
  ContractsRepository f w = Ret r w1 →
  Deployer' f w =
    let w2 := logged (CalledEthNewDeployer ue r) w1 in
    match eth_NewDeployer ue r (length (trace w1)) with
    | (None, _) => Exit 1 (logged (Printed OutUnspecifiedRPC) w2)
    | (Some d, Some err) => Exit 1 (logged (Printed (OutNewDeployerError err)) w2)
    | (Some d, None) => Ret d w2
    end.
Proof.
  intros Hs He Hue Hcall. open_up.
  rewrite Hs, (proj2 (String.eqb_neq _ _) He), Hue.
  change (String.eqb "" "") with true.
  cbv beta iota delta [negb]. rewrite Hcall. simpl.
  by destruct (eth_NewDeployer ue r _) as [[d|] [err|]].
Qed.

(** X5.  With exactly one endpoint set, the two selections agree: the platform
    that [RPCPlatform] names is the one whose constructor builds the
    deployer that [Deployer] returns. *)
Theorem one_endpoint_platform_and_deployer_agree f w r w1 d :
  ContractsRepository f w = Ret r w1 →
  (sbitRPC f ≠ "" → ethRPC f = "" →
     ∀ us, ParseRequestURI (sbitRPC f) = Some us →
           sbit_NewDeployer us r (sbitSenderAddress f) (length (trace w1)) =
             (Some d, None) →
     RPCPlatform f w = Ret RPCSbit w ∧
     Deployer' f w =
       Ret d (logged (CalledSbitNewDeployer us r (sbitSenderAddress f)) w1)) ∧
  (sbitRPC f = "" → ethRPC f ≠ "" →
     ∀ ue, ParseRequestURI (ethRPC f) = Some ue →
           eth_NewDeployer ue r (length (trace w1)) = (Some d, None) →
     RPCPlatform f w = Ret RPCEthereum w ∧
     Deployer' f w = Ret d (logged (CalledEthNewDeployer ue r) w1)).
Proof.
  intros Hcall. split.
  - intros Hs He us Hus Hnew. split.
    + rewrite RPCPlatform_cases. by rewrite (proj2 (String.eqb_neq _ _) Hs).
    + rewrite (Deployer_sbit_only f w us r w1) by done. simpl. by rewrite Hnew.
  - intros Hs He ue Hue Hnew. split.
    + rewrite RPCPlatform_cases. by rewrite Hs, (proj2 (String.eqb_neq _ _) He).
    + rewrite (Deployer_eth_only f w ue r w1) by done. simpl. by rewrite Hnew.
Qed.


(** *** Invariants through the monad *)

Lemma keeps_ret {A} (I : World URL DeployerImpl → Prop) (a : A) :
  keeps I (mret a).
Proof. by intros w Hw. Qed.

Lemma keeps_bind {A B} (I : World URL DeployerImpl → Prop)
    (m : Proc URL DeployerImpl A) (k : A → Proc URL DeployerImpl B) :
  keeps I m → (∀ a, keeps I (k a)) → keeps I (m ≫= k).
Proof.
  intros Hm Hk w Hw. unfold mbind, Proc_bind.
  specialize (Hm w Hw). destruct (m w) as [a w'|e w'|code w']; [|done..].
  by apply Hk.
Qed.

Lemma consistent_logged e w : consistent w → consistent (logged e w).
Proof. done. Qed.

Lemma keeps_fatal {A} (o : Output) :
  keeps consistent (@fatal URL DeployerImpl A o).
Proof. by intros w Hw. Qed.

Lemma consistent_start (fs : string → contract.File) :
  consistent (start (URL:=URL) (DeployerImpl:=DeployerImpl) fs).
Proof. by intros [=]. Qed.

Lemma keeps_ContractsRepository f :
  keeps consistent (ContractsRepository (URL:=URL) (DeployerImpl:=DeployerImpl) f).
Proof.
  intros w Hw. destruct (repoOnce (cli w)) eqn:Hfired.
  - by rewrite ContractsRepository_cached.
  - rewrite ContractsRepository_first by done.
    destruct (contract.OpenContractsRepository _ _) as [book|err]; [|done].
    intros _. exists (length (heap w)). split; [done|]. simpl.
    rewrite lookup_app_r, Nat.sub_diag by done. by eexists.
Qed.

Lemma keeps_Deployer f : keeps consistent (Deployer' f).
Proof.
  unfold Deployer. apply keeps_bind.
  - destruct (negb _); [|apply keeps_ret].
    destruct (ParseRequestURI _); [|apply keeps_fatal].
    apply keeps_bind; [apply keeps_ContractsRepository|]. by intros r w Hw.
  - intros [deployer err]. apply keeps_bind.
    + destruct (negb _); [|apply keeps_ret].
      destruct (ParseRequestURI _); [|apply keeps_fatal].
      apply keeps_bind; [apply keeps_ContractsRepository|]. by intros r w Hw.
    + intros [[d|] [e|]]; first [apply keeps_fatal | apply keeps_ret].
Qed.

Lemma keeps_ExpandJSONParams f text :
  keeps consistent
    (ExpandJSONParams (URL:=URL) (DeployerImpl:=DeployerImpl) chainPrefix f text).
Proof.
  unfold ExpandJSONParams. apply keeps_bind; [apply keeps_ContractsRepository|].
  intros r w Hw. open_up. by destruct (varstr.Expand _ _).
Qed.

(** X8.  The accessors keep the repository at hand: in a process that started
    afresh, and after any of them has run, however it ended, a fired
    [repoOnce] goes with a [c.repo] that points to an allocated
    repository. *)
Theorem accessors_keep_repository_at_hand f :
  (∀ fs, consistent (start (URL:=URL) (DeployerImpl:=DeployerImpl) fs)) ∧
  keeps (URL:=URL) (DeployerImpl:=DeployerImpl) consistent (RPCPlatform f) ∧
  keeps (URL:=URL) (DeployerImpl:=DeployerImpl) consistent (ContractsRepository f) ∧
  keeps (URL:=URL) (DeployerImpl:=DeployerImpl) consistent (SbitRPC sbit_NewRPC f) ∧
  keeps (URL:=URL) (DeployerImpl:=DeployerImpl) consistent
    (ConfigureBytesOutputFormat f) ∧
  keeps consistent (Deployer' f) ∧
  (∀ text, keeps (URL:=URL) (DeployerImpl:=DeployerImpl) consistent
             (ExpandJSONParams chainPrefix f text)).
Proof.
  split; [apply consistent_start|].
  split; [|split; [apply keeps_ContractsRepository|split; [|split; [|split]]]].
  - intros w Hw. rewrite RPCPlatform_cases.
    by destruct (String.eqb (sbitRPC f) ""), (String.eqb (ethRPC f) "").
  - intros w Hw. rewrite SbitRPC_cases. by destruct (sbit_NewRPC _ _) as [rpc [e|]].
  - intros w Hw. open_up. by destruct (negb _).
  - apply keeps_Deployer.
  - intros text. apply keeps_ExpandJSONParams.
Qed.

(** X9.  With the repository at hand, [ContractsRepository] never returns nil:
    what it returns points to an allocated repository; and the only panic
    of [ExpandJSONParams] is the one for a name the repository does not
    bind, never a nil dereference. *)
Theorem repository_never_nil f w :
  consistent w →
  (∀ r w1, ContractsRepository f w = Ret r w1 →
     ∃ p book, r = Some p ∧ heap w1 !! p = Some book) ∧
  (∀ text e w1, ExpandJSONParams chainPrefix f text w = Panic e w1 →
     ∃ p book key, heap w1 !! p = Some book ∧ repo (cli w1) = Some p ∧
                   book !! key = None ∧ e = InvalidAddressExpansion key).
Proof.
  intros Hw.
  assert (Hreturns : ∀ r w1, ContractsRepository f w = Ret r w1 →
            ∃ p book, r = Some p ∧ heap w1 !! p = Some book).
  { intros r w1 Hcall.
    pose proof (keeps_ContractsRepository f w Hw) as Hkept.
    rewrite Hcall in Hkept. simpl in Hkept.
    destruct (ContractsRepository_returns _ _ _ _ Hcall) as [Hfired <-].
    destruct (Hkept Hfired) as (p & Hp & book & Hbook). eauto. }
  split; [exact Hreturns|].
  intros text e w1. open_up.
  destruct (ContractsRepository f w) as [r w'|e0 w'|code w'] eqn:Hcall;
    [|by apply ContractsRepository_no_panic in Hcall|done].
  destruct (Hreturns _ _ eq_refl) as (p & book & -> & Hbook).
  destruct (ContractsRepository_returns _ _ _ _ Hcall) as [_ Hrepo].
  destruct (varstr.Expand _ text) as [out|e'] eqn:Hrun; [done|].
  intros [= <- <-].
  apply expandFrom_panic_origin in Hrun as [key Hkey].
  rewrite (addressOf_book _ _ _ book) in Hkey by done.
  destruct (book !! key) eqn:Hlookup; [done|]. injection Hkey as <-.
  exists p, book, key. eauto.
Qed.

(** *** How the accessors end *)

Lemma exitsWithOne_ret {A} (a : A) :
  exitsWithOne (URL:=URL) (DeployerImpl:=DeployerImpl) (mret a).
Proof. by intros w x. Qed.

Lemma exitsWithOne_bind {A B}
    (m : Proc URL DeployerImpl A) (k : A → Proc URL DeployerImpl B) :
  exitsWithOne m → (∀ a, exitsWithOne (k a)) → exitsWithOne (m ≫= k).
Proof.
  intros Hm Hk w x. unfold mbind, Proc_bind.
  specialize (Hm w). destruct (m w) as [a w'|e w'|code w']; [apply Hk|..];
    intros Hend; by apply Hm.
Qed.

Lemma exitsWithOne_fatal {A} (o : Output) :
  exitsWithOne (@fatal URL DeployerImpl A o).
Proof. intros w x. by intros [= <-]. Qed.

Lemma exitsWithOne_ContractsRepository f :
  exitsWithOne (ContractsRepository (URL:=URL) (DeployerImpl:=DeployerImpl) f).
Proof.
  intros w x. destruct (repoOnce (cli w)) eqn:Hfired.
  - by rewrite ContractsRepository_cached.
  - rewrite ContractsRepository_first by done.
    destruct (contract.OpenContractsRepository _ _); [done|]. by intros [= <-].
Qed.

Lemma exitsWithOne_Deployer f : exitsWithOne (Deployer' f).
Proof.
  unfold Deployer. apply exitsWithOne_bind.
  - destruct (negb _); [|apply exitsWithOne_ret].
    destruct (ParseRequestURI _); [|apply exitsWithOne_fatal].
    apply exitsWithOne_bind; [apply exitsWithOne_ContractsRepository|].
    by intros r w x.
  - intros [deployer err]. apply exitsWithOne_bind.
    + destruct (negb _); [|apply exitsWithOne_ret].
      destruct (ParseRequestURI _); [|apply exitsWithOne_fatal].
      apply exitsWithOne_bind; [apply exitsWithOne_ContractsRepository|].
      by intros r w x.
    + intros [[d|] [e|]]; first [apply exitsWithOne_fatal | apply exitsWithOne_ret].
Qed.

(** X7.  None of the accessors but [ExpandJSONParams] can panic, and when one
    of them ends the process the exit code is 1;
    [ConfigureBytesOutputFormat] always returns. *)
Theorem accessors_end_with_exit_one f :
  exitsWithOne (URL:=URL) (DeployerImpl:=DeployerImpl) (RPCPlatform f) ∧
  exitsWithOne (URL:=URL) (DeployerImpl:=DeployerImpl) (ContractsRepository f) ∧
  exitsWithOne (URL:=URL) (DeployerImpl:=DeployerImpl) (SbitRPC sbit_NewRPC f) ∧
  exitsWithOne (Deployer' f) ∧
  (∀ w : World URL DeployerImpl, ending (ConfigureBytesOutputFormat f w) = None) ∧
  (∀ text (w : World URL DeployerImpl) code,
     ending (ExpandJSONParams chainPrefix f text w) = Some (inr code) → code = 1).
Proof.
  split; [|split; [apply exitsWithOne_ContractsRepository|
                   split; [|split; [apply exitsWithOne_Deployer|split]]]].
  - intros w x. rewrite RPCPlatform_cases.
    destruct (String.eqb (sbitRPC f) ""), (String.eqb (ethRPC f) ""); try done.
    by intros [= <-].
  - intros w x. rewrite SbitRPC_cases.
    destruct (sbit_NewRPC _ _) as [rpc [e|]]; [|done]. by intros [= <-].
  - intros w. open_up. by destruct (negb _).
  - intros text w code. open_up.
    pose proof (exitsWithOne_ContractsRepository f w) as Hend.
    destruct (ContractsRepository f w) as [r w'|e0 w'|code' w'].
    + by destruct (varstr.Expand _ text).
    + done.
    + intros [= <-]. specialize (Hend _ eq_refl). by injection Hend.
Qed.

(** X10.  [ExpandJSONParams] touches the world only through
    [ContractsRepository]: whatever the text, it leaves the world as that
    call leaves it, and where that call ends the process, so does it, before
    any of the text is looked at. *)
Theorem ExpandJSONParams_world f text w :
  final (ExpandJSONParams chainPrefix f text w) = final (ContractsRepository f w) ∧
  (∀ code w1, ContractsRepository f w = Exit code w1 →
     ExpandJSONParams chainPrefix f text w = Exit code w1).
Proof.
  open_up. destruct (ContractsRepository f w) as [r w'|e0 w'|code' w'].
  - split; [|done]. by destruct (varstr.Expand _ text).
  - done.
  - split; [done|]. by intros code w1 [= <- <-].
Qed.

(** X11.  The deployer that [Deployer] returns was given the cached repository:
    the last thing the call did was to construct it, over the pointer that
    [ContractsRepository], and with it [ExpandJSONParams], goes on to use,
    whatever the flags are by then. *)
Theorem Deployer_hands_on_cached_repository f w d w' :
  Deployer' f w = Ret d w' →
  repoOnce (cli w') = true ∧
  (∀ f', ContractsRepository f' w' = Ret (repo (cli w')) w') ∧
  ((∃ u, last (trace w') = Some (CalledEthNewDeployer u (repo (cli w')))) ∨
   (∃ u, last (trace w') =
           Some (CalledSbitNewDeployer u (repo (cli w')) (sbitSenderAddress f)))).
Proof.
  assert (Hcached : ∀ r w1 (e : Event URL),
            ContractsRepository f w = Ret r w1 ∨
            (∃ w0, ContractsRepository f w0 = Ret r w1) →
            repoOnce (cli (logged e w1)) = true ∧
            (∀ f', ContractsRepository f' (logged e w1) =
                     Ret (repo (cli (logged e w1))) (logged e w1)) ∧
            repo (cli (logged e w1)) = r ∧
            last (trace (logged e w1)) = Some e).
  { intros r w1 e Hcall.
    assert (∃ w0, ContractsRepository f w0 = Ret r w1) as [w0 Hcall0]
      by (destruct Hcall; eauto).
    destruct (ContractsRepository_returns _ _ _ _ Hcall0) as [Hfired Hrepo].
    split; [done|]. split; [|split; [done|]].
    - intros f'. by apply ContractsRepository_cached.
    - simpl. apply last_snoc. }
  open_up.
  destruct (String.eqb (sbitRPC f) ""), (String.eqb (ethRPC f) "");
    cbv beta iota delta [negb]; [done|..].
  - destruct (ParseRequestURI (ethRPC f)) as [ue|]; [|done].
    destruct (ContractsRepository f w) as [r w1| |] eqn:Hcall; [|done..].
    destruct (eth_NewDeployer ue r _) as [[d'|] [e|]]; try done.
    intros [= <- <-].
    destruct (Hcached r w1 (CalledEthNewDeployer ue r)) as (? & ? & Hr & Hlast);
      [eauto|].
    split; [done|]. split; [done|]. left. exists ue. by rewrite Hr.
  - destruct (ParseRequestURI (sbitRPC f)) as [us|]; [|done].
    destruct (ContractsRepository f w) as [r w1| |] eqn:Hcall; [|done..].
    destruct (sbit_NewDeployer us r _ _) as [[d'|] [e|]]; try done.
    intros [= <- <-].
    destruct (Hcached r w1 (CalledSbitNewDeployer us r (sbitSenderAddress f)))
      as (? & ? & Hr & Hlast); [eauto|].
    split; [done|]. split; [done|]. right. exists us. by rewrite Hr.
  - destruct (ParseRequestURI (sbitRPC f)) as [us|]; [|done].
    destruct (ContractsRepository f w) as [r w1| |] eqn:Hcall; [|done..].
    destruct (sbit_NewDeployer us r _ _) as [d0 e0].
    destruct (ParseRequestURI (ethRPC f)) as [ue|]; [|done].
    destruct (ContractsRepository f (logged _ w1)) as [r' w2| |] eqn:Hcall';
      [|done..].
    destruct (eth_NewDeployer ue r' _) as [[d'|] [e|]]; try done.
    intros [= <- <-].
    destruct (Hcached r' w2 (CalledEthNewDeployer ue r')) as (? & ? & Hr & Hlast);
      [eauto|].
    split; [done|]. split; [done|]. left. exists ue. by rewrite Hr.
Qed.

(** X13.  [ConfigureBytesOutputFormat] only ever switches the prefix on: it
    leaves a mode that is "with prefix" as it is, also when only the
    UTXO-chain endpoint is set; it changes nothing but the mode; and a
    second call changes nothing at all. *)
Theorem ConfigureBytesOutputFormat_only_switches_on f w :
  ∃ w1, ConfigureBytesOutputFormat f w = Ret () w1 ∧
    ConfigureBytesOutputFormat f w1 = Ret () w1 ∧
    formatBytesWithPrefix w1 =
      formatBytesWithPrefix w || negb (String.eqb (ethRPC f) "") ∧
    (formatBytesWithPrefix w = true → formatBytesWithPrefix w1 = true) ∧
    cli w1 = cli w ∧ files w1 = files w ∧ heap w1 = heap w ∧ trace w1 = trace w.
Proof.
  open_up. destruct (String.eqb (ethRPC f) ""); simpl.
  - exists w. rewrite orb_false_r. by repeat split.
  - eexists. split; [done|]. simpl. rewrite orb_true_r. by repeat split.
Qed.

End accessor_facts.

(** ** Startup *)

Section Main_facts.
Import solar.
Context {URL DeployerImpl : Type}.

Implicit Types (f : Flags) (w : World URL DeployerImpl)
  (appTasks : string → option (Proc URL DeployerImpl (option error))).

Lemma Configure_returns f w :
  ∃ w1, ConfigureBytesOutputFormat f w = Ret () w1 ∧
    formatBytesWithPrefix w1 =
      formatBytesWithPrefix w || negb (String.eqb (ethRPC f) "") ∧
    cli w1 = cli w ∧ files w1 = files w ∧ heap w1 = heap w ∧ trace w1 = trace w.
Proof.
  unfold ConfigureBytesOutputFormat, SetFormatBytesWithPrefix, mret, Proc_ret.
  destruct (String.eqb (ethRPC f) ""); simpl.
  - exists w. rewrite orb_false_r. by repeat split.
  - eexists. split; [done|]. simpl. rewrite orb_true_r. by repeat split.
Qed.

(** X14.  [Main] returns to its caller in one case only: the command line was
    parsed, the command has a task, and the task, run after the output
    format was configured, returned the nil error. *)
Theorem Main_returns_exactly_on_success parsed f appTasks w c :
  Main parsed f appTasks w = Ret () c ↔
  ∃ cmdName task w1 w2,
    parsed = inl cmdName ∧ appTasks cmdName = Some task ∧
    ConfigureBytesOutputFormat f w = Ret () w1 ∧
    task w1 = Ret None w2 ∧ c = quiet w2.
Proof.
  unfold Main. split.
  - destruct parsed as [cmdName|err]; [|done].
    destruct (ConfigureBytesOutputFormat f w) as [[] w1| |]; [|done..].
    destruct (appTasks cmdName) as [task|] eqn:Htask; [|done].
    destruct (task w1) as [[err|] w2| |] eqn:Hrun; try done.
    intros [= <-]. by exists cmdName, task, w1, w2.
  - intros (cmdName & task & w1 & w2 & -> & Htask & Hconf & Hrun & ->).
    by rewrite Hconf, Htask, Hrun.
Qed.

(** X15.  The task runs in a world whose output format has been configured, and
    in no other way changed: in a process that starts without prefix, the
    task finds the prefix on exactly when the account-chain endpoint is
    set.  [Main] ends as the task ends, but for a task that returns an
    error: then [Main] prints that error and ends the process with exit
    code 1. *)
Theorem Main_runs_task_configured cmdName f appTasks task w :
  appTasks cmdName = Some task →
  formatBytesWithPrefix w = false →
  ∃ w1,
    formatBytesWithPrefix w1 = negb (String.eqb (ethRPC f) "") ∧
    cli w1 = cli w ∧ files w1 = files w ∧ heap w1 = heap w ∧ trace w1 = trace w ∧
    world (final (Main (inl cmdName) f appTasks w)) = final (task w1) ∧
    ending (Main (inl cmdName) f appTasks w) =
      match task w1 with
      | Ret (Some _) _ => Some (inr 1)
      | r => ending r
      end ∧
    said (final (Main (inl cmdName) f appTasks w)) =
      match task w1 with
      | Ret (Some err) _ => [err]
      | _ => []
      end.
Proof.
  intros Htask Hinit.
  destruct (Configure_returns f w) as (w1 & Hconf & Hmode & Hcli & Hfiles & Hheap & Htrace).
  exists w1. rewrite Hinit in Hmode. simpl in Hmode.
  do 5 (split; [done|]).
  unfold Main. rewrite Hconf, Htask.
  by destruct (task w1) as [[err|] w2| |].
Qed.

(** X16.  When the command line cannot be parsed, [Main] prints the error
    of [app.Parse] and ends the process with exit code 1, having configured
    nothing and run no task; when the task returns an error, [Main] prints
    that error and ends the process with exit code 1.  These are the only
    two cases in which [Main] prints: what it prints is one error at most,
    and it prints one exactly when it ends the process itself in one of
    these two ways. *)
Theorem Main_prints_then_exits_one parsed f appTasks w :
  (∀ err, parsed = inr err →
     Main parsed f appTasks w = Exit 1 {| world := w; said := [err] |}) ∧
  (∀ cmdName task w1 w2 err,
     parsed = inl cmdName → appTasks cmdName = Some task →
     ConfigureBytesOutputFormat f w = Ret () w1 →
     task w1 = Ret (Some err) w2 →
     Main parsed f appTasks w = Exit 1 {| world := w2; said := [err] |}) ∧
  (∀ err rest,
     said (final (Main parsed f appTasks w)) = err :: rest ↔
     rest = [] ∧
     ending (Main parsed f appTasks w) = Some (inr 1) ∧
     ((parsed = inr err ∧ world (final (Main parsed f appTasks w)) = w) ∨
      (∃ cmdName task w1 w2,
         parsed = inl cmdName ∧ appTasks cmdName = Some task ∧
         ConfigureBytesOutputFormat f w = Ret () w1 ∧
         task w1 = Ret (Some err) w2))).
Proof.
  assert (Hparse : ∀ err, parsed = inr err →
            Main parsed f appTasks w = Exit 1 {| world := w; said := [err] |}).
  { by intros err ->. }
  assert (Htask : ∀ cmdName task w1 w2 err,
            parsed = inl cmdName → appTasks cmdName = Some task →
            ConfigureBytesOutputFormat f w = Ret () w1 →
            task w1 = Ret (Some err) w2 →
            Main parsed f appTasks w = Exit 1 {| world := w2; said := [err] |}).
  { intros cmdName task w1 w2 err -> Hfound Hconf Hrun.
    unfold Main. by rewrite Hconf, Hfound, Hrun. }
  split; [exact Hparse|]. split; [exact Htask|].
  intros err rest. split.
  - unfold Main. destruct parsed as [cmdName|err'].
    + destruct (ConfigureBytesOutputFormat f w) as [[] w1| |] eqn:Hconf; [|done..].
      destruct (appTasks cmdName) as [task|] eqn:Hfound; [|done].
      destruct (task w1) as [[err'|] w2| |] eqn:Hrun; try done.
      simpl. intros [= <- <-]. split; [done|]. split; [done|]. right.
      by exists cmdName, task, w1, w2.
    + simpl. intros [= <- <-]. split; [done|]. split; [done|]. by left.
  - intros (-> & _ & [[Hfailed _]|(cmdName & task & w1 & w2 & Hcmd & Hfound & Hconf & Hrun)]).
    + by rewrite (Hparse err Hfailed).
    + by rewrite (Htask cmdName task w1 w2 err Hcmd Hfound Hconf Hrun).
Qed.

End Main_facts.

(** ** The rest of the command line on concrete inputs *)

Section more_runs.
Import solar fake.

Lemma SolcOptions_paths_witness :
  ∃ text,
    text = "contracts,/usr/lib/solidity" ∧
    strings_Join [ "contracts"; "/usr/lib/solidity" ] "," = text ∧
    length [ "contracts"; "/usr/lib/solidity" ] = S (occurrences "," text) ∧
    Forall (λ path, occurrences "," path = 0) [ "contracts"; "/usr/lib/solidity" ] ∧
    false = negb true.
Proof.
  apply (SolcOptions_paths (solcFlags "contracts,/usr/lib/solidity" true)
           (inr (CollaboratorError "no working directory"))
           {| NoOptimize := false;
              AllowPaths := [ "contracts"; "/usr/lib/solidity" ] |}).
  reflexivity.
Defined.

Lemma SolcOptions_paths_as_given_witness :
  SolcOptions (solcFlags "contracts,/usr/lib/solidity" false) (inl "/home/dev") =
    inl {| NoOptimize := true;
           AllowPaths := [ "contracts"; "/usr/lib/solidity" ] |}.
Proof.
  apply (SolcOptions_paths_as_given
           (solcFlags "contracts,/usr/lib/solidity" false) (inl "/home/dev")
           [ "contracts"; "/usr/lib/solidity" ]).
  - reflexivity.
  - discriminate.
  - by repeat constructor.
Defined.

Lemma SolcOptions_cwd_with_comma_witness :
  SolcOptions (solcFlags "" true) (inl ("/home/dev/a" +:+ "," +:+ "b")) =
    inl {| NoOptimize := false; AllowPaths := [ "/home/dev/a"; "b" ] |}.
Proof.
  apply (SolcOptions_cwd_with_comma (solcFlags "" true) "/home/dev/a" "b");
    reflexivity.
Defined.

Lemma one_endpoint_platform_and_deployer_agree_witness :
  (RPCPlatform (flags "http://localhost:3889" "") (fake.start noFiles) =
     Ret RPCSbit (fake.start noFiles) ∧
   fake.Deployer (flags "http://localhost:3889" "") (fake.start noFiles) =
     Ret (SbitDeployer "http://localhost:3889" (Some 0) "" 1)
       (logged (CalledSbitNewDeployer "http://localhost:3889" (Some 0) "")
          (stored ∅ (logged (OpenedRepository "solar.development.json")
                       (fake.start noFiles))))) ∧
  (RPCPlatform (flags "" "http://localhost:8545") (fake.start noFiles) =
     Ret RPCEthereum (fake.start noFiles) ∧
   fake.Deployer (flags "" "http://localhost:8545") (fake.start noFiles) =
     Ret (EthDeployer "http://localhost:8545" (Some 0) 1)
       (logged (CalledEthNewDeployer "http://localhost:8545" (Some 0))
          (stored ∅ (logged (OpenedRepository "solar.development.json")
                       (fake.start noFiles))))).
Proof.
  split.
  - apply (one_endpoint_platform_and_deployer_agree
             ParseRequestURI sbit_NewDeployer eth_NewDeployer
             (flags "http://localhost:3889" "") (fake.start noFiles) (Some 0)
             (stored ∅ (logged (OpenedRepository "solar.development.json")
                          (fake.start noFiles)))
             (SbitDeployer "http://localhost:3889" (Some 0) "" 1) eq_refl);
      first [discriminate | reflexivity].
  - apply (one_endpoint_platform_and_deployer_agree
             ParseRequestURI sbit_NewDeployer eth_NewDeployer
             (flags "" "http://localhost:8545") (fake.start noFiles) (Some 0)
             (stored ∅ (logged (OpenedRepository "solar.development.json")
                          (fake.start noFiles)))
             (EthDeployer "http://localhost:8545" (Some 0) 1) eq_refl);
      first [discriminate | reflexivity].
Defined.


Lemma repository_never_nil_witness :
  ∃ p book,
    Some 0 = Some p ∧
    heap (stored {[ "Foo" := foo ]}
            (logged (OpenedRepository "solar.development.json")
               (fake.start oneFile))) !! p = Some book.
Proof.
  destruct (repository_never_nil (URL:=string) (DeployerImpl:=Impl) "0x"
              (flags "http://localhost:3889" "") (fake.start oneFile))
    as [Hreturns _]; [by intros [=]|].
  apply Hreturns. reflexivity.
Defined.

Lemma Deployer_hands_on_cached_repository_witness :
  ContractsRepository (flagsAt "other.json" "" "http://localhost:8545")
    (logged (CalledEthNewDeployer "http://localhost:8545" (Some 0))
       (stored ∅ (logged (OpenedRepository "solar.development.json")
                    (fake.start noFiles)))) =
  Ret (Some 0)
    (logged (CalledEthNewDeployer "http://localhost:8545" (Some 0))
       (stored ∅ (logged (OpenedRepository "solar.development.json")
                    (fake.start noFiles)))).
Proof.
  apply (Deployer_hands_on_cached_repository
           ParseRequestURI sbit_NewDeployer eth_NewDeployer
           (flags "" "http://localhost:8545") (fake.start noFiles)
           (EthDeployer "http://localhost:8545" (Some 0) 1)
           (logged (CalledEthNewDeployer "http://localhost:8545" (Some 0))
              (stored ∅ (logged (OpenedRepository "solar.development.json")
                           (fake.start noFiles))))).
  reflexivity.
Defined.


Lemma Main_runs_task_configured_witness :
  ∃ w1 : fake.World,
    formatBytesWithPrefix w1 = true ∧
    cli w1 = cli (fake.start noFiles) ∧ files w1 = files (fake.start noFiles) ∧
    heap w1 = heap (fake.start noFiles) ∧ trace w1 = trace (fake.start noFiles) ∧
    world (final (Main (inl "deploy") (flags "" "http://localhost:8545")
                    (appTasks (flags "" "http://localhost:8545"))
                    (fake.start noFiles))) =
      final (deployTask (flags "" "http://localhost:8545") w1) ∧
    ending (Main (inl "deploy") (flags "" "http://localhost:8545")
              (appTasks (flags "" "http://localhost:8545")) (fake.start noFiles)) =
      match deployTask (flags "" "http://localhost:8545") w1 with
      | Ret (Some _) _ => Some (inr 1)
      | r => ending r
      end ∧
    said (final (Main (inl "deploy") (flags "" "http://localhost:8545")
                   (appTasks (flags "" "http://localhost:8545"))
                   (fake.start noFiles))) =
      match deployTask (flags "" "http://localhost:8545") w1 with
      | Ret (Some err) _ => [err]
      | _ => []
      end.
Proof.
  apply (Main_runs_task_configured "deploy" (flags "" "http://localhost:8545")
           (appTasks (flags "" "http://localhost:8545"))
           (deployTask (flags "" "http://localhost:8545")) (fake.start noFiles));
    reflexivity.
Defined.

Lemma Main_prints_then_exits_one_witness :
  Main (inr (CollaboratorError "unknown long flag")) (flags "" "http://localhost:8545")
    (appTasks (flags "" "http://localhost:8545")) (fake.start noFiles) =
    Exit 1 {| world := fake.start noFiles;
              said := [CollaboratorError "unknown long flag"] |} ∧
  Main (inl "status") (flags "http://localhost:3889" "")
    (appTasks (flags "http://localhost:3889" "")) (fake.start noFiles) =
    Exit 1 {| world := fake.start noFiles;
              said := [CollaboratorError "not deployed"] |} ∧
  ending (Main (inl "status") (flags "http://localhost:3889" "")
            (appTasks (flags "http://localhost:3889" "")) (fake.start noFiles)) =
    Some (inr 1).
Proof.
  split; [|split].
  - by apply (Main_prints_then_exits_one
                (inr (CollaboratorError "unknown long flag"))
                (flags "" "http://localhost:8545")
                (appTasks (flags "" "http://localhost:8545")) (fake.start noFiles)).
  - destruct (Main_prints_then_exits_one (inl "status")
                (flags "http://localhost:3889" "")
                (appTasks (flags "http://localhost:3889" "")) (fake.start noFiles))
      as (_ & Htask & _).
    by apply (Htask "status" statusTask (fake.start noFiles) (fake.start noFiles)).
  - destruct (Main_prints_then_exits_one (inl "status")
                (flags "http://localhost:3889" "")
                (appTasks (flags "http://localhost:3889" "")) (fake.start noFiles))
      as (_ & _ & Hiff).
    by destruct (proj1 (Hiff (CollaboratorError "not deployed") []) eq_refl)
      as (_ & Hend & _).
Defined.

End more_runs.
